(** * microdrum-marl: the control-loop and evaluation layer of [microutils.py]

    A shallow embedding of the PID controller, the PID tuning objective, the
    sequential multi-agent control loop, the run-history metrics, the history
    loader and the artifact locator, together with the properties the
    specification states about them.

    Conventions.
    - Where a property is about which computation is done and which branch
      is taken, Python floats are idealised as exact rationals: every number
      is a [Qc] (a rational in lowest terms, so that [=] is equality of
      values, as Python's [==] on numbers).
    - Where rounding, overflow, NaN or the wrap-around of 64-bit integers
      decide the outcome (the bounds of the controller's output, the check of
      the time step in [calc_metrics]), the code is modelled a second time on
      IEEE 754 doubles ([Machine]).
    - Where the failures of the file system decide the outcome, the artifact
      locator is modelled a second time with a [glob] and a [getmtime] that
      may raise ([FilesIO]).
    - A Python exception is a value of [exn]; code that can raise returns a
      [result].
    - Objects of collaborators ([HolosSingle], the PettingZoo environment,
      the PPO model, [pathlib] and [os.path]) are records of the operations
      the code calls on them, over an explicit state. *)

From Stdlib Require Import QArith Qcanon Qcabs Qround Lqa Ascii Sorted SpecFloat.
From stdpp Require Import base option list numbers strings.

Local Open Scope Qc_scope.
Local Open Scope list_scope.

(** ** Numbers *)

(** An integer of the source ([100], [1_000], [len(a)]) as a number. *)
Definition int (n : Z) : Qc := Qc_of_Z n.

(** The float literals of the source. *)
Definition lit_1_2 : Qc := Q2Qc (12 # 10).    (* 1.2 *)
Definition lit_77_8 : Qc := Q2Qc (778 # 10).  (* 77.8 *)

(** [np.maximum] and [np.minimum] on numbers. *)
Definition np_maximum (a b : Qc) : Qc := if decide (a < b) then b else a.
Definition np_minimum (a b : Qc) : Qc := if decide (b < a) then b else a.

(** [np.clip(a, a_min, a_max)]: elementwise [minimum(maximum(a, a_min), a_max)]. *)
Definition np_clip (a : list Qc) (a_min a_max : Qc) : list Qc :=
  map (fun x => np_minimum (np_maximum x a_min) a_max) a.

(** [np.abs], [np.sum] and [np.mean] on a one-dimensional array. *)
Definition np_abs (a : list Qc) : list Qc := map Qcabs a.
Definition np_sum (a : list Qc) : Qc := foldr Qcplus 0 a.
Definition np_mean (a : list Qc) : Qc := np_sum a / int (Z.of_nat (length a)).

(** Closed equalities between numbers are decided on their fractions. *)
Ltac qc_eq := apply Qc_is_canon; reflexivity.

(** ** Exceptions *)

Inductive exn : Type :=
  | AssertionError (msg : option string)   (* [assert c] / [assert c, msg] *)
  | KeyError (label : nat)                 (* [series[label]] on a missing label *)
  | IndexError                             (* [l[0]] on an empty list *)
  | OSError (msg : string).                (* raised by a collaborator *)

Inductive result (A : Type) : Type :=
  | Ok (a : A)
  | Raise (e : exn).
Arguments Ok {A} a.
Arguments Raise {A} e.

Global Instance result_ret : MRet result := fun _ a => Ok a.
Global Instance result_bind : MBind result := fun _ _ f m =>
  match m with
  | Ok a => f a
  | Raise e => Raise e
  end.

(** [assert c, msg] *)
Definition assert (c : bool) (msg : option string) : result unit :=
  if c then Ok tt else Raise (AssertionError msg).

(** ** The PID controller *)

(** The controller on exact rationals; [Machine] below has the same
    controller on doubles. *)

Module PID.

Record PIDController : Type := mkPID {
  Kp : Qc;
  Ki : Qc;
  Kd : Qc;
  max_rate : Qc;
  integral : Qc;
  err_prev : Qc;
  t_prev : Qc;
  deriv_prev : Qc
}.

(** [PIDController.__init__] *)
Definition init (Kp Ki Kd max_rate : Qc) : PIDController :=
  {| Kp := Kp; Ki := Ki; Kd := Kd; max_rate := max_rate;
     integral := 0; err_prev := 0; t_prev := 0; deriv_prev := 0 |}.

(** The defaults [Kp=.078, Ki=0, Kd=0.3, max_rate=1]. *)
Definition default : PIDController :=
  init (Q2Qc (78 # 1000)) 0 (Q2Qc (3 # 10)) 1.

(** [PIDController.update]: the returned array and the controller after the
    call. *)
Definition update (self : PIDController) (measurement setpoint : Qc)
  : list Qc * PIDController :=
  let err := setpoint - measurement in
  let del_t := 1 in
  let integral' := integral self + Ki self * err * del_t in
  let deriv_prev' := (err - err_prev self) / del_t in
  let err_prev' := err in
  let command := Kp self * err + integral' + Kd self * deriv_prev' in
  let command_sat := np_clip [command] (- max_rate self) (max_rate self) in
  (command_sat,
   {| Kp := Kp self; Ki := Ki self; Kd := Kd self; max_rate := max_rate self;
      integral := integral'; err_prev := err_prev'; t_prev := t_prev self;
      deriv_prev := deriv_prev' |}).

(** The controller as the specification words it (section 4.1): [clamp]
    raises its argument to the lower bound, then lowers it to the upper one. *)
Definition clamp (x lo hi : Qc) : Qc :=
  let y := if decide (x < lo) then lo else x in
  if decide (hi < y) then hi else y.

Record spec_step : Type := {
  error : Qc;
  new_integral : Qc;
  derivative : Qc;
  raw_command : Qc;
  control_signal : Qc
}.

Definition update_spec (c : PIDController) (measurement setpoint : Qc) : spec_step :=
  let error := setpoint - measurement in
  let acc := integral c + Ki c * error * 1 in
  let derivative := (error - err_prev c) / 1 in
  let raw := Kp c * error + acc + Kd c * derivative in
  {| error := error; new_integral := acc; derivative := derivative;
     raw_command := raw;
     control_signal := clamp raw (- max_rate c) (max_rate c) |}.

End PID.

(** ** Run histories and their metrics *)

(** Run histories on exact rationals: the difference of the first two time
    values and the sums are exact here.  [Machine] below has the same
    function on the 64-bit integers and doubles of a table as pandas reads
    it. *)

Module History.

(** One record of a run history: the columns the code reads. *)
Record Row : Type := mkRow {
  time : Qc;
  desired_power : Qc;
  actual_power : Qc;
  drum_1 : Qc; drum_2 : Qc; drum_3 : Qc; drum_4 : Qc;
  drum_5 : Qc; drum_6 : Qc; drum_7 : Qc; drum_8 : Qc
}.

(** A [pd.DataFrame] with the default integer index: its rows in order. *)
Definition DataFrame : Type := list Row.

(** [history[name]]: a column, as a series. *)
Definition column (name : Row -> Qc) (history : DataFrame) : list Qc :=
  map name history.

(** [series[label]]: [KeyError] when the label is not in the index. *)
Definition getitem (series : list Qc) (label : nat) : result Qc :=
  match series !! label with
  | Some x => Ok x
  | None => Raise (KeyError label)
  end.

(** [a - b] on two series with the same index. *)
Definition series_sub (a b : list Qc) : list Qc := zip_with Qcminus a b.

(** [history[['drum_1', ..., 'drum_8']]]: one list of eight angles per row. *)
Definition drum_columns (history : DataFrame) : list (list Qc) :=
  map (fun r => [drum_1 r; drum_2 r; drum_3 r; drum_4 r;
                 drum_5 r; drum_6 r; drum_7 r; drum_8 r]) history.

(** [np.diff(a, axis=0)] on a two-dimensional array: [out[i] = a[i+1] - a[i]]. *)
Definition np_diff_axis0 (a : list (list Qc)) : list (list Qc) :=
  zip_with (zip_with Qcminus) (tail a) a.

(** [np.abs] and [np.sum] on a two-dimensional array. *)
Definition np_abs2 (a : list (list Qc)) : list (list Qc) := map np_abs a.
Definition np_sum2 (a : list (list Qc)) : Qc := np_sum (map np_sum a).

Definition unit_step_msg : string := "metric calculations assume 1 second timesteps".

Definition calc_metrics (history : DataFrame) : result (Qc * Qc * Qc) :=
  t1 ← getitem (column time history) 1;
  t0 ← getitem (column time history) 0;
  assert (bool_decide (t1 - t0 = 1)) (Some unit_step_msg);;
  let error := series_sub (column desired_power history) (column actual_power history) in
  let absolute_error := np_abs error in
  let mean_absolute_error := np_mean absolute_error in
  let integral_absolute_error := np_sum absolute_error in
  let drum_angles := drum_columns history in
  let drum_speeds := np_diff_axis0 drum_angles in
  let absolute_drum_speeds := np_abs2 drum_speeds in
  let control_effort := np_sum2 absolute_drum_speeds in
  Ok (mean_absolute_error, integral_absolute_error, control_effort).

(** The metrics as the specification words them (section 4.5). *)

(** [sum over all rows of |desired_power - actual_power|] *)
Fixpoint sum_abs_error (history : DataFrame) : Qc :=
  match history with
  | [] => 0
  | r :: rest => Qcabs (desired_power r - actual_power r) + sum_abs_error rest
  end.

(** [sum over all consecutive pairs of |x' - x|] for one channel. *)
Fixpoint travel (angles : list Qc) : Qc :=
  match angles with
  | x :: (x' :: _) as rest => Qcabs (x' - x) + travel rest
  | _ => 0
  end.

Definition drums : list (Row -> Qc) :=
  [drum_1; drum_2; drum_3; drum_4; drum_5; drum_6; drum_7; drum_8].

(** [sum over the 8 drum columns of the travel of that drum]. *)
Definition total_travel (history : DataFrame) : Qc :=
  np_sum (map (fun drum => travel (map drum history)) drums).

Definition metrics_spec (history : DataFrame) : Qc * Qc * Qc :=
  (sum_abs_error history / int (Z.of_nat (length history)),
   sum_abs_error history,
   total_travel history).

End History.

(** ** The file system: artifact locator and history loader *)

Module Files.
Import History.

(** A [pathlib.Path]. *)
Definition Path : Type := string.

(** What the code asks of [pathlib], [os.path] and [pandas].  Here [glob]
    and [getmtime] always answer; [FilesIO] below lets them raise. *)
Record FileSystem : Type := {
  path_exists : Path -> bool;                 (* [p.exists()] *)
  glob : Path -> string -> list Path;         (* [p.glob(pattern)], in the order yielded *)
  getmtime : Path -> Qc;                      (* [os.path.getmtime(p)] *)
  is_file : Path -> bool;                     (* [p.is_file()] *)
  read_csv : Path -> result DataFrame         (* [pd.read_csv(p)] *)
}.

(** [any(paths)]: a [Path] object is always truthy. *)
Definition any_path (paths : list Path) : bool :=
  match paths with
  | [] => false
  | _ :: _ => true
  end.

(** [sorted(paths, key=key, reverse=True)]: descending, and stable (entries
    with equal keys keep their order). *)
Fixpoint insert_reverse (key : Path -> Qc) (x : Path) (l : list Path) : list Path :=
  match l with
  | [] => [x]
  | y :: l' => if decide (key x < key y) then y :: insert_reverse key x l' else x :: l
  end.

Definition sorted_reverse (key : Path -> Qc) (paths : list Path) : list Path :=
  foldr (insert_reverse key) [] paths.

(** The order of the sorted list: descending by [key]. *)
Definition newer_first (key : Path -> Qc) (a b : Path) : Prop := key b <= key a.

(** [l[0]] *)
Definition first_item (l : list Path) : result Path :=
  match l with
  | [] => Raise IndexError
  | x :: _ => Ok x
  end.

Definition no_match_msg (pattern : string) (folder_path : Path) : string :=
  "No files match pattern '" +:+ pattern +:+ "' in folder '" +:+ folder_path +:+ "'".

Definition not_a_file_msg (latest_file : Path) : string :=
  "Latest file '" +:+ latest_file +:+ "' is not a file".

Definition find_latest_file (fs : FileSystem) (folder_path : Path) (pattern : string)
  : result Path :=
  assert (path_exists fs folder_path) None;;
  assert (any_path (glob fs folder_path pattern))
         (Some (no_match_msg pattern folder_path));;
  latest_file ← first_item (sorted_reverse (getmtime fs) (glob fs folder_path pattern));
  assert (is_file fs latest_file) (Some (not_a_file_msg latest_file));;
  Ok latest_file.

Definition initial_power_msg : string :=
  "steady state initial power value should be 100".
Definition initial_drum_msg : string :=
  "steady state initial drum angle should be 77.8".

Definition load_history (fs : FileSystem) (history_path : Path) : result DataFrame :=
  assert (path_exists fs history_path) None;;
  history ← read_csv fs history_path;
  p0 ← getitem (column desired_power history) 0;
  assert (bool_decide (p0 = 1)) (Some initial_power_msg);;
  d0 ← getitem (column drum_8 history) 0;
  assert (bool_decide (d0 = lit_77_8)) (Some initial_drum_msg);;
  Ok history.

(** An error is descriptive when it carries a message. *)
Definition descriptive (e : exn) : bool :=
  match e with
  | AssertionError (Some _) => true
  | AssertionError None => false
  | KeyError _ => true
  | IndexError => false
  | OSError _ => true
  end.

End Files.

(** ** The PID tuning objective *)

Module Tuning.
Import PID History.

(** The calls the objective makes, in order. *)
Inductive call : Type :=
  | CallReset                               (* [holos_env.reset()] *)
  | CallStep (action : list Qc)             (* [holos_env.step(action)] *)
  | CallRender                              (* [holos_env.render()] *)
  | CallCalcMetrics (history : DataFrame)   (* [calc_metrics(history)] *)
  | CallPrint (iae : Qc).                   (* [print(f'IAE: ...')] *)

Section Objective.
Context {State Obs : Type}.

(** What the objective asks of the [envs.HolosSingle] instance it closes
    over; [State] is the state of that instance. *)
Record HolosSingle : Type := {
  power : Obs -> Qc;                                   (* [obs["power"]] *)
  reset : State -> Obs * State;                        (* [obs, _ = reset()] *)
  step : list Qc -> State -> Obs * bool * bool * State;
                                  (* [obs, _, terminated, truncated, _ = step(action)] *)
  time : State -> Qc;                                  (* [holos_env.time] *)
  profile : State -> Qc -> Qc;                         (* [holos_env.profile(t)] *)
  render : State -> State;                             (* [holos_env.render()] *)
  multi_env_history : State -> DataFrame               (* [holos_env.multi_env.history] *)
}.

Variable holos_env : HolosSingle.

(** How the [while not done] loop is left. *)
Inductive loop_exit : Type :=
  | Tripped (fake_iae : Qc)    (* [return fake_iae] inside the loop *)
  | Done.                      (* [done] became true *)

(** The loop of [pid_objective]; [None] when [fuel] iterations do not end it. *)
Fixpoint while_not_done (fuel : nat) (controller : PIDController) (obs : Obs)
    (s : State) (log : list call) : option (loop_exit * State * list call) :=
  match fuel with
  | O => None
  | S fuel' =>
      let '(action, controller') :=
        update controller (power holos_env obs * int 100)
               (profile holos_env s (time holos_env s + 1)) in
      let '(obs', terminated, truncated, s') := step holos_env action s in
      let log' := log ++ [CallStep action] in
      let done := terminated || truncated in
      if decide (lit_1_2 < power holos_env obs') then
        let fake_iae := int 1000 * power holos_env obs' in
        Some (Tripped fake_iae, s', log' ++ [CallPrint fake_iae])
      else if done then Some (Done, s', log')
      else while_not_done fuel' controller' obs' s' log'
  end.

(** [pid_objective(params)], from the state [s] of the environment. *)
Definition pid_objective (fuel : nat) (params : Qc * Qc * Qc) (s : State)
  : option (result Qc * State * list call) :=
  let '(p_gain, i_gain, d_gain) := params in
  let controller := PID.init p_gain i_gain d_gain 1 in
  let '(obs, s) := reset holos_env s in
  match while_not_done fuel controller obs s [CallReset] with
  | None => None
  | Some (Tripped fake_iae, s, log) => Some (Ok fake_iae, s, log)
  | Some (Done, s, log) =>
      let s := render holos_env s in
      let history := multi_env_history holos_env s in
      let log := log ++ [CallRender; CallCalcMetrics history] in
      match calc_metrics history with
      | Ok (_, iae, _) => Some (Ok iae, s, log ++ [CallPrint iae])
      | Raise e => Some (Raise e, s, log)
      end
  end.

(** The episode on its own: controller, observation and environment after
    each step, whatever the objective does with them. *)
Record config : Type := {
  controller_of : PIDController;
  obs_of : Obs;
  state_of : State;
  done_of : bool;
  action_of : list Qc      (* the action of the step that led here *)
}.

Definition start (params : Qc * Qc * Qc) (s : State) : config :=
  let '(p_gain, i_gain, d_gain) := params in
  let '(obs, s) := reset holos_env s in
  {| controller_of := PID.init p_gain i_gain d_gain 1; obs_of := obs;
     state_of := s; done_of := false; action_of := [] |}.

Definition advance (c : config) : config :=
  let '(action, controller') :=
    update (controller_of c) (power holos_env (obs_of c) * int 100)
           (profile holos_env (state_of c) (time holos_env (state_of c) + 1)) in
  let '(obs', terminated, truncated, s') := step holos_env action (state_of c) in
  {| controller_of := controller'; obs_of := obs'; state_of := s';
     done_of := terminated || truncated; action_of := action |}.

Fixpoint after (n : nat) (c : config) : config :=
  match n with
  | O => c
  | S n' => advance (after n' c)
  end.

(** The observed power after the step exceeds 1.2. *)
Definition over (c : config) : Prop := lit_1_2 < power holos_env (obs_of c).

Global Instance over_dec c : Decision (over c).
Proof. unfold over. apply _. Defined.

(** The [step] calls of the first [n] steps. *)
Definition steps (n : nat) (c : config) : list call :=
  map (fun j => CallStep (action_of (after j c))) (seq 1 n).

(** The steps before [k] neither trip nor end the episode. *)
Definition uneventful (k : nat) (c : config) : Prop :=
  forall j, (0 < j < k)%nat -> ~ over (after j c) /\ done_of (after j c) = false.

(** The loop resumed from a configuration of the episode. *)
Definition resume (fuel : nat) (c : config) (log : list call)
  : option (loop_exit * State * list call) :=
  while_not_done fuel (controller_of c) (obs_of c) (state_of c) log.

End Objective.
Arguments HolosSingle : clear implicits.

End Tuning.

(** ** The sequential multi-agent control loop *)

Module Marl.

Section Loop.
Context {State Obs Act : Type}.

(** The environment after [parallel_to_aec], as the loop uses it. *)
Record AECEnv : Type := {
  reset : State -> State;                 (* [env.reset()] *)
  has_next : State -> bool;               (* [agent_iter()] yields another agent *)
  last : State -> Obs * bool * bool;      (* [obs, _, terminated, truncated, _ = env.last()] *)
  step : Act -> State -> State;           (* [env.step(action)] *)
  render : State -> State                 (* [env.render()] *)
}.

(** The trained model: [model.predict(obs, deterministic=True)[0]]. *)
Record Policy : Type := { predict : Obs -> Act }.

(** The calls the loop makes, in order; [CallLast] records what the agent's
    last transition reported. *)
Inductive call : Type :=
  | CallReset
  | CallLast (terminated truncated : bool)
  | CallPredict (obs : Obs)
  | CallStep (action : Act)
  | CallRender.

Variable model : Policy.
Variable env : AECEnv.

(** [for agent in env.agent_iter(max_iter)]: the iterator stops after
    [max_iter] agents or when the environment has none left. *)
Fixpoint agent_loop (max_iter : nat) (s : State) (log : list call)
  : State * list call :=
  match max_iter with
  | O => (s, log)
  | S iters =>
      if has_next env s then
        let '(obs, terminated, truncated) := last env s in
        let log := log ++ [CallLast terminated truncated] in
        if terminated || truncated then (s, log)
        else
          let action := predict model obs in
          let log := log ++ [CallPredict obs] in
          let s := step env action s in
          agent_loop iters s (log ++ [CallStep action])
      else (s, log)
  end.

Definition marl_control_loop (max_iter : nat) (s : State) : State * list call :=
  let s := reset env s in
  let '(s, log) := agent_loop max_iter s [CallReset] in
  (render env s, log ++ [CallRender]).

(** The calls of a sequence of agent turns in which every turn reads the
    last transition first and acts only when it is not terminal. *)
Inductive checked_turns : list call -> Prop :=
  | turns_end : checked_turns []
  | turns_break terminated truncated :
      terminated || truncated = true ->
      checked_turns [CallLast terminated truncated]
  | turns_act terminated truncated obs rest :
      terminated || truncated = false ->
      checked_turns rest ->
      checked_turns (CallLast terminated truncated :: CallPredict obs
                       :: CallStep (predict model obs) :: rest).

(** Whether a call is one of the two the loop may only make after a
    non-terminal [last]. *)
Definition acts (c : call) : bool :=
  match c with
  | CallPredict _ | CallStep _ => true
  | _ => false
  end.

End Loop.
Arguments AECEnv : clear implicits.
Arguments Policy : clear implicits.
Arguments call : clear implicits.

End Marl.

(** ** The single-agent control loops and the evaluation of a trained model *)

Module Loops.
Import PID History Files.

(** [run_folder / name] *)
Definition joinpath (folder : Path) (name : string) : Path := folder +:+ "/" +:+ name.

(** The calls of [rl_control_loop], in order. *)
Inductive rl_call {Obs : Type} : Type :=
  | DoReset
  | DoPredict (obs : Obs)           (* [model.predict(obs, deterministic=True)] *)
  | DoStep (action : list Qc)
  | DoRender.
Arguments rl_call : clear implicits.

Section Single.
Import Tuning.
Context {State Obs : Type}.
Variable single_env : HolosSingle State Obs.

(** The gains of [PIDController()]. *)
Definition default_params : Qc * Qc * Qc := (Q2Qc (78 # 1000), 0, Q2Qc (3 # 10)).

(** The loop of [pid_loop]; [None] when [fuel] iterations do not end it. *)
Fixpoint pid_while (fuel : nat) (controller : PIDController) (obs : Obs)
    (s : State) (log : list Tuning.call) : option (State * list Tuning.call) :=
  match fuel with
  | O => None
  | S fuel' =>
      let '(action, controller') :=
        update controller (power single_env obs * int 100)
               (profile single_env s (time single_env s + 1)) in
      let '(obs', terminated, truncated, s') := step single_env action s in
      let log' := log ++ [Tuning.CallStep action] in
      if terminated || truncated then Some (s', log')
      else pid_while fuel' controller' obs' s' log'
  end.

Definition pid_loop (fuel : nat) (s : State) : option (State * list Tuning.call) :=
  let controller := PID.default in
  let '(obs, s) := reset single_env s in
  match pid_while fuel controller obs s [Tuning.CallReset] with
  | None => None
  | Some (s, log) => Some (render single_env s, log ++ [Tuning.CallRender])
  end.

(** The trained model: [model.predict(obs, deterministic=True)[0]]. *)
Record Policy : Type := { predict : Obs -> list Qc }.

Variable model : Policy.

(** The loop of [rl_control_loop]. *)
Fixpoint rl_while (fuel : nat) (obs : Obs) (s : State) (log : list (rl_call Obs))
  : option (State * list (rl_call Obs)) :=
  match fuel with
  | O => None
  | S fuel' =>
      let action := predict model obs in
      let log' := log ++ [DoPredict obs] in
      let '(obs', terminated, truncated, s') := step single_env action s in
      let log' := log' ++ [DoStep action] in
      if terminated || truncated then Some (s', log')
      else rl_while fuel' obs' s' log'
  end.

Definition rl_control_loop (fuel : nat) (s : State) : option (State * list (rl_call Obs)) :=
  let '(obs, s) := reset single_env s in
  match rl_while fuel obs s [DoReset] with
  | None => None
  | Some (s, log) => Some (render single_env s, log ++ [DoRender])
  end.

(** The calls of one turn per observation: the prediction, then the step
    with the predicted action. *)
Definition turns_of (observations : list Obs) : list (rl_call Obs) :=
  observations ≫= fun obs => [DoPredict obs; DoStep (predict model obs)].

End Single.
Arguments Policy : clear implicits.

Section Evaluation.
Import Tuning.
Context {State Obs : Type}.

(** What [test_trained_rl] needs besides the environment: the model that
    [sb3.PPO.load] reads from a path, and the file system as it stands when
    the environment is in a given state ([render] writes the run history). *)
Record Workspace : Type := {
  PPO_load : Path -> result (Policy Obs);
  files : State -> FileSystem
}.

Variable ws : Workspace.
Variable test_env : HolosSingle State Obs.   (* the environment built from [env_kwargs] *)

(** The part of [test_trained_rl] after the control loop. *)
Definition read_back (fs : FileSystem) (run_folder : Path) : result DataFrame :=
  history_path ← find_latest_file fs run_folder "run_history*.csv";
  history ← load_history fs history_path;
  calc_metrics history;;
  Ok history.

(** [test_trained_rl(env_type, env_kwargs)] with [run_folder =
    env_kwargs['run_path']], from the state [s] of the new environment. *)
Definition test_trained_rl (fuel : nat) (run_folder : Path) (s : State)
  : option (result DataFrame * State * list (rl_call Obs)) :=
  let model_folder := joinpath run_folder "models" in
  match find_latest_file (files ws s) model_folder "*.zip" with
  | Raise e => Some (Raise e, s, [])
  | Ok model_path =>
      match PPO_load ws model_path with
      | Raise e => Some (Raise e, s, [])
      | Ok model =>
          match rl_control_loop test_env model fuel s with
          | None => None
          | Some (s, log) => Some (read_back (files ws s) run_folder, s, log)
          end
      end
  end.

End Evaluation.
Arguments Workspace : clear implicits.

End Loops.

(** ** The multi-agent loop turn by turn, and the evaluation of a trained
    multi-agent model *)

Module MarlEval.
Import History Files.

Section Turns.
Import Marl.
Context {State Obs Act : Type}.
Variable model : Policy Obs Act.
Variable env : AECEnv State Obs Act.

(** The agent whose turn it is reports terminated or truncated. *)
Definition terminal (s : State) : bool :=
  let '(_, terminated, truncated) := last env s in terminated || truncated.

(** The calls of a turn in which the policy acts, and the environment after
    it. *)
Definition turn (s : State) : list (call Obs Act) :=
  let '(obs, terminated, truncated) := last env s in
  [CallLast terminated truncated; CallPredict obs; CallStep (predict model obs)].

Definition act (s : State) : State :=
  let '(obs, _, _) := last env s in step env (predict model obs) s.

Fixpoint played (n : nat) (s : State) : State :=
  match n with
  | O => s
  | S n' => played n' (act s)
  end.

Fixpoint turns_played (n : nat) (s : State) : list (call Obs Act) :=
  match n with
  | O => []
  | S n' => turn s ++ turns_played n' (act s)
  end.

(** The first [k] turns find an agent that is neither terminated nor
    truncated. *)
Definition playing (k : nat) (s : State) : Prop :=
  forall j, (j < k)%nat ->
    has_next env (played j s) = true /\ terminal (played j s) = false.

(** How often the log has a call of a kind. *)
Definition calls_where (kind : call Obs Act -> bool) (log : list (call Obs Act)) : nat :=
  length (List.filter kind log).

Definition is_last (c : call Obs Act) : bool :=
  match c with CallLast _ _ => true | _ => false end.
Definition is_predict (c : call Obs Act) : bool :=
  match c with CallPredict _ => true | _ => false end.
Definition is_step (c : call Obs Act) : bool :=
  match c with CallStep _ => true | _ => false end.

End Turns.

Section Evaluation.
Import Marl.
Context {State Obs Act : Type}.

(** As [Loops.Workspace], for a multi-agent model. *)
Record Workspace : Type := {
  PPO_load : Path -> result (Policy Obs Act);
  files : State -> FileSystem
}.

Variable ws : Workspace.
Variable test_env : AECEnv State Obs Act.   (* the environment built from [env_kwargs] *)

(** [test_trained_marl(env_type, env_kwargs)] with [run_folder =
    env_kwargs['run_path']], from the state [s] of the new environment. *)
Definition test_trained_marl (max_iter : nat) (run_folder : Path) (s : State)
  : result DataFrame * State * list (call Obs Act) :=
  let model_folder := Loops.joinpath run_folder "models" in
  match find_latest_file (files ws s) model_folder "*.zip" with
  | Raise e => (Raise e, s, [])
  | Ok model_path =>
      match PPO_load ws model_path with
      | Raise e => (Raise e, s, [])
      | Ok model =>
          let '(s, log) := marl_control_loop model test_env max_iter s in
          (Loops.read_back (files ws s) run_folder, s, log)
      end
  end.

End Evaluation.
Arguments Workspace : clear implicits.

End MarlEval.

(** ** The callback frequencies of the training functions *)

Module Training.

Definition half : Qc := Q2Qc (1 # 2).

(** [round(y)]: the nearest integer, the even one of the two when [y] is
    halfway. *)
Definition round_half_even (y : Qc) : Z :=
  let f := Qfloor y in
  let r := y - Qc_of_Z f in
  if decide (r < half) then f
  else if decide (half < r) then (f + 1)%Z
  else if Z.even f then f else (f + 1)%Z.

(** [round(x, -3)]: the nearest multiple of 1000. *)
Definition round_thousands (x : Qc) : Qc :=
  int 1000 * Qc_of_Z (round_half_even (x / int 1000)).

(** [eval_freq] of [train_rl]: [round(10_000 / n_envs, -3)]; [None] stands
    for the [ZeroDivisionError] of [n_envs = 0]. *)
Definition eval_freq (n_envs : Z) : option Qc :=
  if decide (n_envs = 0%Z) then None
  else Some (round_thousands (int 10000 / int n_envs)).

(** [save_freq] of [train_marl]: [round(1_000_000 / (8 * n_envs), -3)]. *)
Definition save_freq (n_envs : Z) : option Qc :=
  if decide ((8 * n_envs)%Z = 0%Z) then None
  else Some (round_thousands (int 1000000 / int (8 * n_envs))).

End Training.

(** ** Sample data *)

Module Samples.
Import History.

(** A row whose eight drums stand at the same angle. *)
Definition row (t desired actual angle : Qc) : Row :=
  mkRow t desired actual angle angle angle angle angle angle angle angle.

Definition q (n : Z) (d : positive) : Qc := Q2Qc (n # d).

(** Three seconds of a run that starts at steady state. *)
Definition short_run : DataFrame :=
  [ row 0 1 1 lit_77_8;
    row 1 1 (q 98 100) (q 78 1);
    row 2 (q 9 10) (q 95 100) (q 775 10) ].

(** A directory listing as a file system: [entries] are the paths under
    [folder] with their modification time and whether they are regular
    files, [tables] the CSV files that can be read. *)
Import Files.

Definition ends_with (suffix s : string) : bool :=
  let n := String.length s in
  let m := String.length suffix in
  (m <=? n)%nat && String.eqb (String.substring (n - m) m s) suffix.

(** Patterns of the form [*suffix]; any other pattern matches itself only. *)
Definition fnmatch (pattern name : string) : bool :=
  match pattern with
  | String "*"%char suffix => ends_with suffix name
  | _ => String.eqb pattern name
  end.

Definition find_entry (entries : list (Path * Qc * bool)) (p : Path)
  : option (Qc * bool) :=
  (fun e => (e.2.1.2, e.2.2)) <$> list_find (fun e => e.1.1 = p) entries.

Definition listing (folder : Path) (entries : list (Path * Qc * bool))
    (tables : list (Path * DataFrame)) : FileSystem :=
  {| path_exists p :=
       bool_decide (p = folder) || bool_decide (is_Some (find_entry entries p));
     glob p pattern :=
       if bool_decide (p = folder)
       then filter (fun name => fnmatch pattern name = true) (map (fun e => e.1.1) entries)
       else [];
     getmtime p := default 0 (fst <$> find_entry entries p);
     is_file p := default false (snd <$> find_entry entries p);
     read_csv p :=
       match list_find (fun t => t.1 = p) tables with
       | Some (_, (_, df)) => Ok df
       | None => Raise (OSError "No such file or directory")
       end |}.

(** Two checkpoints, and a newer directory that matches [*.zip] as well. *)
Definition models_with_directory : FileSystem :=
  listing "runs/models"
    [ ("runs/models/ppo_marl_8000_steps.zip", int 10, true);
      ("runs/models/ppo_marl_16000_steps.zip", int 20, true);
      ("runs/models/archive.zip", int 30, false);
      ("runs/models/notes.txt", int 40, true) ]
    [].

(** Three checkpoints. *)
Definition models_only : FileSystem :=
  listing "runs/models"
    [ ("runs/models/ppo_marl_8000_steps.zip", int 10, true);
      ("runs/models/ppo_marl_24000_steps.zip", int 30, true);
      ("runs/models/ppo_marl_16000_steps.zip", int 20, true) ]
    [].

(** A run folder with one good history and one that starts off steady
    state in its first row only. *)
Definition off_steady_run : DataFrame :=
  [ row 0 (q 9 10) (q 9 10) lit_77_8;
    row 1 1 1 lit_77_8;
    row 2 1 1 lit_77_8 ].

Definition run_folder : FileSystem :=
  listing "runs/pid"
    [ ("runs/pid/run_history_1.csv", int 10, true);
      ("runs/pid/run_history_2.csv", int 20, true) ]
    [ ("runs/pid/run_history_1.csv", short_run);
      ("runs/pid/run_history_2.csv", off_steady_run) ].

(** A single-agent environment that plays back a list of observed powers:
    its state is the number of steps taken, the episode is truncated after
    [episode_length] steps, the setpoint is 100 throughout. *)
Definition playback (powers : list Qc) (episode_length : nat) (history : DataFrame)
  : Tuning.HolosSingle nat Qc :=
  {| Tuning.power obs := obs;
     Tuning.reset _ := (1, 0%nat);
     Tuning.step _ t :=
       (default 1 (powers !! t), false, bool_decide (episode_length <= S t)%nat, S t);
     Tuning.time t := int (Z.of_nat t);
     Tuning.profile _ _ := int 100;
     Tuning.render t := t;
     Tuning.multi_env_history _ := history |}.

(** Power spikes to 1.3 at the second step of a ten-step episode. *)
Definition spiking : Tuning.HolosSingle nat Qc :=
  playback [q 11 10; q 13 10; 1; 1] 10 short_run.

(** Three quiet steps, then the episode is over. *)
Definition quiet : Tuning.HolosSingle nat Qc :=
  playback [1; q 98 100; q 95 100] 3 short_run.

Definition default_gains : Qc * Qc * Qc := (q 78 1000, 0, q 3 10).

(** A turn-based environment whose agents are done after [turns] turns; the
    observation is the number of turns played. *)
Definition countdown (turns : nat) : Marl.AECEnv nat nat (list Qc) :=
  {| Marl.reset _ := 0%nat;
     Marl.has_next _ := true;
     Marl.last t := (t, bool_decide (turns <= t)%nat, false);
     Marl.step _ t := S t;
     Marl.render t := t |}.

(** A policy that answers every observation with [0]. *)
Definition idle : Marl.Policy nat (list Qc) := {| Marl.predict _ := [0] |}.

End Samples.

(** ** More sample data *)

Module MoreSamples.
Import History Files Samples.

(** A policy that answers the observed power itself. *)
Definition echo : Loops.Policy Qc := {| Loops.predict obs := [obs] |}.

(** Shell-style matching of a name, with [*] for any run of characters. *)
Fixpoint wildcard (pattern : string) : string -> bool :=
  match pattern with
  | EmptyString => fun name => match name with EmptyString => true | _ => false end
  | String c pattern' =>
      if Ascii.eqb c "*" then
        fix star (name : string) : bool :=
          wildcard pattern' name
          || match name with EmptyString => false | String _ name' => star name' end
      else
        fun name =>
          match name with
          | EmptyString => false
          | String d name' => Ascii.eqb c d && wildcard pattern' name'
          end
  end.

(** Folders with the name, modification time and kind of their entries, in
    the order [glob] yields them, and the tables of the CSV files. *)
Definition tree (folders : list (Path * list (string * Qc * bool)))
    (tables : list (Path * DataFrame)) : FileSystem :=
  let entries :=
    folders ≫= fun f => map (fun e => (Loops.joinpath f.1 e.1.1, e.1.2, e.2)) f.2 in
  {| path_exists p :=
       bool_decide (p ∈ map fst folders) || bool_decide (is_Some (find_entry entries p));
     glob p pattern :=
       folders ≫= fun f =>
         if bool_decide (f.1 = p)
         then map (fun e => Loops.joinpath p e.1.1)
                  (List.filter (fun e => wildcard pattern e.1.1) f.2)
         else [];
     getmtime p := default 0 (fst <$> find_entry entries p);
     is_file p := default false (snd <$> find_entry entries p);
     read_csv p :=
       match list_find (fun t => t.1 = p) tables with
       | Some (_, (_, df)) => Ok df
       | None => Raise (OSError "No such file or directory")
       end |}.

(** Two checkpoints written in the same second, listed before an older
    one. *)
Definition models_tied : FileSystem :=
  tree [ ("runs/marl/models",
          [ ("ppo_marl_12000_steps.zip", int 10, true);
            ("ppo_marl_24000_steps.zip", int 20, true);
            ("ppo_marl_36000_steps.zip", int 20, true) ]) ]
       [].

(** A run folder after an evaluation: a model, an older history that starts
    off steady state and the history of the run. *)
Definition evaluated : FileSystem :=
  tree [ ("runs/single",
          [ ("models", int 5, false);
            ("run_history_0.csv", int 10, true);
            ("run_history_1.csv", int 20, true) ]);
         ("runs/single/models", [ ("best_model.zip", int 7, true) ]) ]
       [ ("runs/single/run_history_0.csv", off_steady_run);
         ("runs/single/run_history_1.csv", short_run) ].

Definition single_workspace : Loops.Workspace nat Qc :=
  {| Loops.PPO_load _ := Ok echo; Loops.files _ := evaluated |}.

Definition marl_workspace : MarlEval.Workspace nat nat (list Qc) :=
  {| MarlEval.PPO_load _ := Ok idle; MarlEval.files _ := evaluated |}.

End MoreSamples.

(** ** The file system with its failures *)

(** [glob] raises on a pattern it does not accept, and [os.path.getmtime]
    raises [FileNotFoundError] on an entry that does not lead to a file (a
    dangling link): here both may raise. *)

Module FilesIO.
Import Files.

Record FileSystem : Type := {
  path_exists : Path -> bool;                      (* [p.exists()] *)
  glob : Path -> string -> result (list Path);     (* [p.glob(pattern)], in the order yielded *)
  getmtime : Path -> result Qc;                    (* [os.path.getmtime(p)] *)
  is_file : Path -> bool                           (* [p.is_file()] *)
}.

(** The keys of [sorted(paths, key=key)]: computed first, entry by entry in
    the order of the list. *)
Fixpoint keys (key : Path -> result Qc) (paths : list Path) : result (list Qc) :=
  match paths with
  | [] => Ok []
  | p :: rest => k ← key p; ks ← keys key rest; Ok (k :: ks)
  end.

(** The key of an entry once it is known to have one. *)
Definition key_of (key : Path -> result Qc) (p : Path) : Qc :=
  match key p with
  | Ok k => k
  | Raise _ => 0
  end.

(** [sorted(paths, key=key, reverse=True)] *)
Definition sorted_reverse (key : Path -> result Qc) (paths : list Path)
  : result (list Path) :=
  keys key paths;;
  Ok (Files.sorted_reverse (key_of key) paths).

Definition find_latest_file (fs : FileSystem) (folder_path : Path) (pattern : string)
  : result Path :=
  assert (path_exists fs folder_path) None;;
  matches ← glob fs folder_path pattern;
  assert (any_path matches) (Some (no_match_msg pattern folder_path));;
  matches ← glob fs folder_path pattern;
  sorted ← sorted_reverse (getmtime fs) matches;
  latest_file ← first_item sorted;
  assert (is_file fs latest_file) (Some (not_a_file_msg latest_file));;
  Ok latest_file.

(** A file system on which nothing raises. *)
Definition lift (fs : Files.FileSystem) : FileSystem :=
  {| path_exists := Files.path_exists fs;
     glob p pattern := Ok (Files.glob fs p pattern);
     getmtime p := Ok (Files.getmtime fs p);
     is_file := Files.is_file fs |}.

(** Two checkpoints and a link [latest.zip] whose target is gone. *)
Definition with_dangling_link : FileSystem :=
  {| path_exists p := bool_decide (p = "runs/models");
     glob p pattern :=
       if bool_decide (p = "runs/models")
       then Ok ["runs/models/ppo_8000_steps.zip"; "runs/models/latest.zip";
                "runs/models/ppo_16000_steps.zip"]
       else Ok [];
     getmtime p :=
       if bool_decide (p = "runs/models/ppo_8000_steps.zip") then Ok (int 10)
       else if bool_decide (p = "runs/models/ppo_16000_steps.zip") then Ok (int 20)
       else Raise (OSError "No such file or directory");
     is_file p :=
       bool_decide (p = "runs/models/ppo_8000_steps.zip")
       || bool_decide (p = "runs/models/ppo_16000_steps.zip") |}.

End FilesIO.

(** ** The episode of [rl_control_loop] step by step *)

Module RlEpisode.
Import Loops.

Section Episode.
Import Tuning.
Context {State Obs : Type}.
Variable env : HolosSingle State Obs.
Variable model : Policy Obs.

(** The current observation, the environment, and whether the step that led
    here reported terminated or truncated. *)
Record config : Type := {
  obs_of : Obs;
  state_of : State;
  done_of : bool
}.

Definition start (s : State) : config :=
  let '(obs, s) := reset env s in
  {| obs_of := obs; state_of := s; done_of := false |}.

(** One turn: the policy predicts on the current observation and the
    environment steps with the predicted action. *)
Definition advance (c : config) : config :=
  let '(obs', terminated, truncated, s') :=
    step env (predict model (obs_of c)) (state_of c) in
  {| obs_of := obs'; state_of := s'; done_of := terminated || truncated |}.

Fixpoint after (n : nat) (c : config) : config :=
  match n with
  | O => c
  | S n' => after n' (advance c)
  end.

(** The calls of the first [n] turns. *)
Fixpoint turns (n : nat) (c : config) : list (rl_call Obs) :=
  match n with
  | O => []
  | S n' =>
      DoPredict (obs_of c) :: DoStep (predict model (obs_of c)) :: turns n' (advance c)
  end.

End Episode.

End RlEpisode.

(** ** Binary64 arithmetic *)

(** Where a property depends on rounding, overflow or NaN, the code is
    modelled on the doubles it computes with: [spec_float] at precision 53
    and maximal exponent 1024, with the operations of IEEE 754 in their
    round-to-nearest-even form. *)

Module Machine.

Definition prec : Z := 53.
Definition emax : Z := 1024.

Definition double : Type := spec_float.

(** An integer as a double ([float(n)]), and the double nearest to the
    decimal [n / d] (both [n] and [d] being doubles themselves). *)
Definition of_Z (n : Z) : double := binary_normalize prec emax n 0 false.
Definition dec (n : Z) (d : positive) : double :=
  SFdiv prec emax (of_Z n) (of_Z (Zpos d)).

Definition zero : double := S754_zero false.
Definition one : double := of_Z 1.
Definition nan : double := S754_nan.

Definition add : double -> double -> double := SFadd prec emax.
Definition sub : double -> double -> double := SFsub prec emax.
Definition mul : double -> double -> double := SFmul prec emax.
Definition div : double -> double -> double := SFdiv prec emax.
Definition opp : double -> double := SFopp.
Definition abs : double -> double := SFabs.
Definition ltb : double -> double -> bool := SFltb.   (* [a < b] *)
Definition leb : double -> double -> bool := SFleb.   (* [a <= b] *)
Definition eqb : double -> double -> bool := SFeqb.   (* [a == b] *)

Definition is_nan (x : double) : bool :=
  match x with S754_nan => true | _ => false end.
Definition is_zero (x : double) : bool :=
  match x with S754_zero _ => true | _ => false end.
Definition is_finite (x : double) : bool :=
  match x with S754_zero _ | S754_finite _ _ _ => true | _ => false end.

(** [np.clip] on doubles: [min(max(x, a_min), a_max)] where [max(a, b)] is
    [a] when [a] is NaN and [a > b ? a : b] otherwise, and likewise for
    [min]. *)
Definition clip_max (a b : double) : double :=
  if is_nan a then a else if ltb b a then a else b.
Definition clip_min (a b : double) : double :=
  if is_nan a then a else if ltb a b then a else b.
Definition np_clip (a : list double) (a_min a_max : double) : list double :=
  map (fun x => clip_min (clip_max x a_min) a_max) a.

(** [lo <= y <= hi] *)
Definition within (lo hi y : double) : bool := leb lo y && leb y hi.

(** *** The controller *)

Record PIDController : Type := mkPID {
  Kp : double;
  Ki : double;
  Kd : double;
  max_rate : double;
  integral : double;
  err_prev : double;
  t_prev : double;
  deriv_prev : double
}.

(** [PIDController.__init__] *)
Definition init (Kp Ki Kd max_rate : double) : PIDController :=
  {| Kp := Kp; Ki := Ki; Kd := Kd; max_rate := max_rate;
     integral := zero; err_prev := zero; t_prev := zero; deriv_prev := zero |}.

(** The defaults [Kp=.078, Ki=0, Kd=0.3, max_rate=1]. *)
Definition default : PIDController :=
  init (dec 78 1000) (of_Z 0) (dec 3 10) (of_Z 1).

(** The raw command of a call and the accumulator after it. *)
Definition new_integral (self : PIDController) (err : double) : double :=
  add (integral self) (mul (mul (Ki self) err) one).

Definition command (self : PIDController) (measurement setpoint : double) : double :=
  let err := sub setpoint measurement in
  let del_t := one in
  let integral' := add (integral self) (mul (mul (Ki self) err) del_t) in
  let deriv_prev' := div (sub err (err_prev self)) del_t in
  add (add (mul (Kp self) err) integral') (mul (Kd self) deriv_prev').

(** [PIDController.update] *)
Definition update (self : PIDController) (measurement setpoint : double)
  : list double * PIDController :=
  let err := sub setpoint measurement in
  let del_t := one in
  let integral' := add (integral self) (mul (mul (Ki self) err) del_t) in
  let deriv_prev' := div (sub err (err_prev self)) del_t in
  let err_prev' := err in
  let command := add (add (mul (Kp self) err) integral') (mul (Kd self) deriv_prev') in
  let command_sat := np_clip [command] (opp (max_rate self)) (max_rate self) in
  (command_sat,
   {| Kp := Kp self; Ki := Ki self; Kd := Kd self; max_rate := max_rate self;
      integral := integral'; err_prev := err_prev'; t_prev := t_prev self;
      deriv_prev := deriv_prev' |}).

(** The controller after the calls [update(m, s)] for each [(m, s)] of
    [inputs], in order. *)
Definition updates (c : PIDController) (inputs : list (double * double)) : PIDController :=
  foldl (fun c i => (update c i.1 i.2).2) c inputs.

(** *** Run histories *)

(** A column of numbers as pandas reads it: 64-bit integers or doubles. *)
Inductive series : Type :=
  | Int64 (values : list Z)
  | Float64 (values : list double).

Inductive scalar : Type :=
  | I64 (z : Z)
  | F64 (x : double).

(** [series[label]] with the default index. *)
Definition getitem (s : series) (label : nat) : result scalar :=
  match s with
  | Int64 values =>
      match values !! label with
      | Some z => Ok (I64 z)
      | None => Raise (KeyError label)
      end
  | Float64 values =>
      match values !! label with
      | Some x => Ok (F64 x)
      | None => Raise (KeyError label)
      end
  end.

(** The value of a 64-bit integer operation: the result modulo [2^64], in
    [[-2^63, 2^63)]. *)
Definition wrap64 (z : Z) : Z := ((z + 2 ^ 63) mod 2 ^ 64 - 2 ^ 63)%Z.

Definition int64 (z : Z) : Prop := (- 2 ^ 63 <= z < 2 ^ 63)%Z.

(** [a - b == 1] on two values of a column. *)
Definition step_is_one (a b : scalar) : bool :=
  match a, b with
  | I64 x, I64 y => (wrap64 (x - y) =? 1)%Z
  | F64 x, F64 y => eqb (sub x y) one
  | I64 x, F64 y => eqb (sub (of_Z x) y) one
  | F64 x, I64 y => eqb (sub x (of_Z y)) one
  end.

(** The columns of doubles that the metrics read, row by row. *)
Record Data : Type := mkData {
  desired_power : double;
  actual_power : double;
  drum_1 : double; drum_2 : double; drum_3 : double; drum_4 : double;
  drum_5 : double; drum_6 : double; drum_7 : double; drum_8 : double
}.

Record DataFrame : Type := { time : series; rows : list Data }.

Definition drum_columns (rows : list Data) : list (list double) :=
  map (fun r => [drum_1 r; drum_2 r; drum_3 r; drum_4 r;
                 drum_5 r; drum_6 r; drum_7 r; drum_8 r]) rows.

(** [np.diff(a, axis=0)] *)
Definition np_diff_axis0 (a : list (list double)) : list (list double) :=
  zip_with (zip_with sub) (tail a) a.

Section Metrics.

(** The reductions of the libraries, whose order of summation is theirs:
    [np.sum] and [np.mean] of a column, [np.sum] of a two-dimensional
    array. *)
Variable np_sum : list double -> double.
Variable np_mean : list double -> double.
Variable np_sum2 : list (list double) -> double.

Definition calc_metrics (history : DataFrame) : result (double * double * double) :=
  t1 ← getitem (time history) 1;
  t0 ← getitem (time history) 0;
  assert (step_is_one t1 t0) (Some History.unit_step_msg);;
  let error :=
    zip_with sub (map desired_power (rows history)) (map actual_power (rows history)) in
  let absolute_error := map abs error in
  let mean_absolute_error := np_mean absolute_error in
  let integral_absolute_error := np_sum absolute_error in
  let drum_angles := drum_columns (rows history) in
  let drum_speeds := np_diff_axis0 drum_angles in
  let absolute_drum_speeds := map (map abs) drum_speeds in
  let control_effort := np_sum2 absolute_drum_speeds in
  Ok (mean_absolute_error, integral_absolute_error, control_effort).

(** The metrics as section 4.5 words them: [|desired - actual|] of every
    row, and [|difference of consecutive angles|] of every drum for every
    pair of consecutive rows. *)
Definition abs_errors (rows : list Data) : list double :=
  map (fun r => abs (sub (desired_power r) (actual_power r))) rows.

Definition moves (r r' : Data) : list double :=
  map (fun drum : Data -> double => abs (sub (drum r') (drum r)))
      [drum_1; drum_2; drum_3; drum_4; drum_5; drum_6; drum_7; drum_8].

Fixpoint drum_moves (rows : list Data) : list (list double) :=
  match rows with
  | r :: (r' :: _) as rest => moves r r' :: drum_moves rest
  | _ => []
  end.

Definition metrics (rows : list Data) : double * double * double :=
  (np_mean (abs_errors rows), np_sum (abs_errors rows), np_sum2 (drum_moves rows)).

End Metrics.

(** Summation from left to right, for the samples. *)
Definition seq_sum (a : list double) : double := foldl add zero a.
Definition seq_mean (a : list double) : double :=
  div (seq_sum a) (of_Z (Z.of_nat (length a))).
Definition seq_sum2 (a : list (list double)) : double := seq_sum (concat a).

(** *** Sample data *)

Definition row (desired actual angle : double) : Data :=
  mkData desired actual angle angle angle angle angle angle angle angle.

Definition three_rows : list Data :=
  [ row one one (dec 778 10);
    row one (dec 98 100) (of_Z 78);
    row (dec 9 10) (dec 95 100) (dec 775 10) ].




(** Times 0, 1, 2 as integers. *)
Definition seconds : DataFrame :=
  {| time := Int64 [0; 1; 2]%Z; rows := three_rows |}.

(** Times [2^63 - 1] and [-2^63] as integers. *)
Definition wrapping : DataFrame :=
  {| time := Int64 [2 ^ 63 - 1; - 2 ^ 63; 0]%Z; rows := three_rows |}.

(** Times 1e-17, 1, 2. *)
Definition tiny_start : DataFrame :=
  {| time := Float64 [dec 1 (10 ^ 17); one; of_Z 2]; rows := three_rows |}.

(** Times 0, 0.5, 1. *)
Definition half_seconds : DataFrame :=
  {| time := Float64 [zero; dec 1 2; one]; rows := three_rows |}.

(** Times 0.0, 1.0, 2.0. *)
Definition float_seconds : DataFrame :=
  {| time := Float64 [zero; one; of_Z 2]; rows := three_rows |}.


End Machine.

(** * Properties *)

(** ** Numbers *)

Lemma Qcopp_le_self x : 0 <= x -> - x <= x.
Proof.
  intros H. trans 0; [|done].
  apply Qcopp_le_compat in H. by replace (- 0) with 0 in H by ring.
Qed.

(** ** The PID controller *)

Section Controller.
Import PID.

(** The two readings of a clamp agree: numpy's and the specification's. *)
Lemma np_clip_clamp x lo hi : np_clip [x] lo hi = [clamp x lo hi].
Proof.
  unfold np_clip, clamp, np_minimum, np_maximum. simpl.
  by destruct (decide (x < lo)).
Qed.

(** Inside a non-empty range, [clamp] is the usual three-way case split. *)
Lemma clamp_cases x lo hi :
  lo <= hi ->
  clamp x lo hi = if decide (x < lo) then lo else if decide (hi < x) then hi else x.
Proof.
  intros Hle. unfold clamp.
  destruct (decide (x < lo)); [|done].
  destruct (decide (hi < lo)) as [Hlt|]; [|done].
  by apply Qclt_not_le in Hlt.
Qed.

(** C3: [update] computes the error, the accumulator, the derivative and the
    raw command as section 4.1 words them, returns the clamped command,
    stores the three updated fields and leaves every other field alone. *)
Theorem update_follows_spec (c : PIDController) (measurement setpoint : Qc) :
  let sp := update_spec c measurement setpoint in
  let c' := (update c measurement setpoint).2 in
  (update c measurement setpoint).1 = [control_signal sp] /\
  error sp = setpoint - measurement /\
  new_integral sp = integral c + Ki c * error sp * 1 /\
  derivative sp = (error sp - err_prev c) / 1 /\
  raw_command sp = Kp c * error sp + new_integral sp + Kd c * derivative sp /\
  control_signal sp = clamp (raw_command sp) (- max_rate c) (max_rate c) /\
  integral c' = new_integral sp /\
  deriv_prev c' = derivative sp /\
  err_prev c' = error sp /\
  Kp c' = Kp c /\ Ki c' = Ki c /\ Kd c' = Kd c /\
  max_rate c' = max_rate c /\ t_prev c' = t_prev c.
Proof.
  simpl. split; [apply np_clip_clamp | by repeat split].
Qed.

End Controller.

(** ** Metrics *)

Section Metrics.
Import History.

Lemma np_sum_abs_error h :
  np_sum (np_abs (series_sub (column desired_power h) (column actual_power h)))
  = sum_abs_error h.
Proof. induction h as [|r h IH]; simpl; [done | by rewrite <- IH]. Qed.

Lemma length_abs_error h :
  length (np_abs (series_sub (column desired_power h) (column actual_power h)))
  = length h.
Proof. induction h as [|r h IH]; simpl; [done | by f_equal]. Qed.

Lemma np_diff_axis0_cons x y a :
  np_diff_axis0 (x :: y :: a) = zip_with Qcminus y x :: np_diff_axis0 (y :: a).
Proof. done. Qed.

(** The travel of all drums splits into the first move and the rest. *)
Lemma total_travel_cons r r' h :
  total_travel (r :: r' :: h)
  = np_sum (np_abs (zip_with Qcminus (map (fun d => d r') drums) (map (fun d => d r) drums)))
    + total_travel (r' :: h).
Proof.
  unfold total_travel, np_abs, drums.
  cbn [map zip_with np_sum foldr travel]. ring.
Qed.

(** Summing row by row, as the code does, or drum by drum, as the
    specification says, gives the same control effort. *)
Lemma control_effort_travel h :
  np_sum2 (np_abs2 (np_diff_axis0 (drum_columns h))) = total_travel h.
Proof.
  destruct h as [|r h].
  - unfold total_travel, drums. cbn. ring.
  - revert r. induction h as [|r' h IH]; intros r.
    + unfold total_travel, drums. cbn. ring.
    + rewrite total_travel_cons, <- IH.
      unfold drum_columns at 1. simpl map.
      rewrite np_diff_axis0_cons. done.
Qed.

(** Once the first two time values are there, [calc_metrics] is the check of
    their difference followed by the metrics of section 4.5. *)
Lemma calc_metrics_checked h t0 t1 :
  column time h !! 0%nat = Some t0 ->
  column time h !! 1%nat = Some t1 ->
  calc_metrics h
  = (assert (bool_decide (t1 - t0 = 1)) (Some unit_step_msg);;
     Ok (metrics_spec h)).
Proof.
  intros H0 H1. unfold calc_metrics, getitem. rewrite H0, H1. simpl.
  destruct (bool_decide (t1 - t0 = 1)); simpl; [|done].
  unfold metrics_spec, np_mean.
  by rewrite np_sum_abs_error, length_abs_error, control_effort_travel.
Qed.




End Metrics.

(** ** The artifact locator *)

Section Locator.
Import Files.

Variable key : Path -> Qc.

Lemma insert_reverse_perm x l : insert_reverse key x l ≡ₚ x :: l.
Proof.
  induction l as [|y l IH]; simpl; [done|].
  destruct (decide (key x < key y)); [|done].
  by rewrite IH, Permutation_swap.
Qed.

Lemma sorted_reverse_perm l : sorted_reverse key l ≡ₚ l.
Proof.
  induction l as [|x l IH]; simpl; [done|].
  by rewrite insert_reverse_perm, IH.
Qed.

Lemma insert_reverse_sorted x l :
  StronglySorted (newer_first key) l -> StronglySorted (newer_first key) (insert_reverse key x l).
Proof.
  induction 1 as [|y l Hsorted IH Hall]; simpl.
  - repeat constructor.
  - destruct (decide (key x < key y)) as [Hlt|Hge].
    + constructor; [exact IH|].
      rewrite insert_reverse_perm. constructor; [|done].
      by apply Qclt_le_weak.
    + apply Qcnot_lt_le in Hge.
      constructor; [by constructor|].
      constructor; [done|].
      eapply Forall_impl; [exact Hall|].
      intros z Hz. unfold newer_first in *. by trans (key y).
Qed.

Lemma sorted_reverse_sorted l : StronglySorted (newer_first key) (sorted_reverse key l).
Proof.
  induction l as [|x l IH]; simpl; [constructor | by apply insert_reverse_sorted].
Qed.

(** The first entry of the sorted list is one of the entries, and none is
    newer. *)
Lemma sorted_reverse_first l x rest :
  sorted_reverse key l = x :: rest ->
  x ∈ l /\ forall y, y ∈ l -> key y <= key x.
Proof.
  intros Hsort.
  pose proof (sorted_reverse_perm l) as Hperm.
  pose proof (sorted_reverse_sorted l) as Hsorted.
  rewrite Hsort in Hperm, Hsorted. split.
  - rewrite <- Hperm. by left.
  - intros y Hy. rewrite <- Hperm in Hy.
    apply StronglySorted_inv in Hsorted as [_ Hall].
    apply elem_of_cons in Hy as [->|Hy]; [done|].
    rewrite Forall_forall in Hall. by apply Hall.
Qed.

Lemma sorted_reverse_nonempty l :
  l <> [] -> exists x rest, sorted_reverse key l = x :: rest.
Proof.
  intros Hl. destruct (sorted_reverse key l) as [|x rest] eqn:Hsort; [|by eauto].
  pose proof (sorted_reverse_perm l) as Hperm. rewrite Hsort in Hperm.
  by apply Permutation_nil_l in Hperm.
Qed.

(** An entry strictly newer than every other one comes first. *)
Lemma sorted_reverse_newest l latest :
  latest ∈ l ->
  (forall p, p ∈ l -> p <> latest -> key p < key latest) ->
  exists rest, sorted_reverse key l = latest :: rest.
Proof.
  intros Hin Hnewest.
  destruct (sorted_reverse_nonempty l) as (x & rest & Hsort).
  { intros ->. by apply not_elem_of_nil in Hin. }
  destruct (sorted_reverse_first l x rest Hsort) as [Hx Hmax].
  destruct (decide (x = latest)) as [->|Hne]; [by eauto|].
  specialize (Hnewest x Hx Hne). specialize (Hmax latest Hin).
  by apply Qclt_not_le in Hnewest.
Qed.

End Locator.

Section LocatorClaims.
Import Files.

(** The newest of the three checkpoints is found. *)
Example find_latest_file_models_only :
  find_latest_file Samples.models_only "runs/models" "*.zip"
  = Ok "runs/models/ppo_marl_24000_steps.zip".
Proof. reflexivity. Qed.

(** C10: when the match that is strictly newer than every other match is
    not a regular file, [find_latest_file] raises; it does not fall back to
    the newest regular file, whether or not one is among the matches. *)
Theorem find_latest_file_no_fallback (fs : FileSystem) (folder_path : Path)
    (pattern : string) (latest : Path) :
  path_exists fs folder_path = true ->
  latest ∈ glob fs folder_path pattern ->
  (forall p, p ∈ glob fs folder_path pattern -> p <> latest ->
             getmtime fs p < getmtime fs latest) ->
  is_file fs latest = false ->
  find_latest_file fs folder_path pattern
  = Raise (AssertionError (Some (not_a_file_msg latest))).
Proof.
  intros Hexists Hin Hnewest Hdir. unfold find_latest_file.
  destruct (sorted_reverse_newest (getmtime fs) _ _ Hin Hnewest) as [rest Hsort].
  rewrite Hexists, Hsort.
  destruct (glob fs folder_path pattern); [by apply not_elem_of_nil in Hin|].
  simpl. by rewrite Hdir.
Qed.

Lemma find_latest_file_no_fallback_witness :
  (exists p, p ∈ glob Samples.models_with_directory "runs/models" "*.zip" /\
             is_file Samples.models_with_directory p = true) /\
  find_latest_file Samples.models_with_directory "runs/models" "*.zip"
  = Raise (AssertionError (Some (not_a_file_msg "runs/models/archive.zip"))).
Proof.
  split.
  - exists "runs/models/ppo_marl_16000_steps.zip". split; [|reflexivity].
    vm_compute. apply list_elem_of_further, list_elem_of_here.
  - apply (find_latest_file_no_fallback Samples.models_with_directory
             "runs/models" "*.zip" "runs/models/archive.zip").
    + reflexivity.
    + vm_compute. do 2 apply list_elem_of_further. apply list_elem_of_here.
    + intros p Hp Hne. vm_compute in Hp.
      repeat (apply elem_of_cons in Hp as [->|Hp]; [by vm_compute|]).
      by apply not_elem_of_nil in Hp.
    + reflexivity.
Defined.

End LocatorClaims.

(** ** The history loader *)

Section Loader.
Import Files History.

(** C8: a table whose first [desired_power] is not 1 or whose first
    [drum_8] is not 77.8 makes [load_history] raise, whatever its other rows
    are; when both first-row checks pass the table is returned. *)
Theorem load_history_first_row (fs : FileSystem) (history_path : Path)
    (r : Row) (rest : DataFrame) :
  path_exists fs history_path = true ->
  read_csv fs history_path = Ok (r :: rest) ->
  (desired_power r <> 1 \/ drum_8 r <> lit_77_8 ->
   exists msg, load_history fs history_path = Raise (AssertionError (Some msg)))
  /\
  (desired_power r = 1 -> drum_8 r = lit_77_8 ->
   load_history fs history_path = Ok (r :: rest)).
Proof.
  intros Hexists Hread. unfold load_history. rewrite Hexists, Hread. simpl.
  split.
  - intros Hbad.
    destruct (decide (desired_power r = 1)) as [Hp|Hp].
    + destruct Hbad as [Hbad|Hd]; [done|].
      rewrite (bool_decide_eq_true_2 _ Hp), (bool_decide_eq_false_2 _ Hd).
      by eexists.
    + rewrite (bool_decide_eq_false_2 _ Hp). by eexists.
  - intros Hp Hd.
    by rewrite (bool_decide_eq_true_2 _ Hp), (bool_decide_eq_true_2 _ Hd).
Qed.

Lemma load_history_first_row_witness :
  (desired_power (Samples.row 0 (Samples.q 9 10) (Samples.q 9 10) lit_77_8) <> 1
   \/ drum_8 (Samples.row 0 (Samples.q 9 10) (Samples.q 9 10) lit_77_8) <> lit_77_8 ->
   exists msg, load_history Samples.run_folder "runs/pid/run_history_2.csv"
               = Raise (AssertionError (Some msg)))
  /\
  (desired_power (Samples.row 0 (Samples.q 9 10) (Samples.q 9 10) lit_77_8) = 1 ->
   drum_8 (Samples.row 0 (Samples.q 9 10) (Samples.q 9 10) lit_77_8) = lit_77_8 ->
   load_history Samples.run_folder "runs/pid/run_history_2.csv"
   = Ok Samples.off_steady_run).
Proof.
  apply (load_history_first_row Samples.run_folder "runs/pid/run_history_2.csv");
    reflexivity.
Defined.

(** The two sample histories: one is returned, one is rejected. *)
Example load_history_run_folder :
  load_history Samples.run_folder "runs/pid/run_history_1.csv" = Ok Samples.short_run
  /\ load_history Samples.run_folder "runs/pid/run_history_2.csv"
     = Raise (AssertionError (Some initial_power_msg)).
Proof. split; reflexivity. Qed.

End Loader.

(** ** The tuning objective *)

Section ObjectiveClaims.
Import Tuning.
Context {State Obs : Type} (holos_env : HolosSingle State Obs).

(** One iteration of the loop is one step of the episode, followed by the
    two tests in the order of the source. *)
Lemma while_not_done_step fuel c log :
  resume holos_env (S fuel) c log =
  let c' := advance holos_env c in
  let log' := log ++ [CallStep (action_of c')] in
  if decide (over holos_env c') then
    Some (Tripped (int 1000 * power holos_env (obs_of c')), state_of c',
          log' ++ [CallPrint (int 1000 * power holos_env (obs_of c'))])
  else if done_of c' then Some (Done, state_of c', log')
  else resume holos_env fuel c' log'.
Proof.
  unfold resume, advance, over_dec, over. simpl.
  by destruct (step holos_env _ (state_of c)) as [[[obs' terminated] truncated] s'].
Qed.

Lemma after_advance n c :
  after holos_env n (advance holos_env c) = after holos_env (S n) c.
Proof. induction n as [|n IH]; simpl; [done | by rewrite IH]. Qed.

Lemma steps_advance n c :
  steps holos_env (S n) c
  = CallStep (action_of (advance holos_env c)) :: steps holos_env n (advance holos_env c).
Proof.
  unfold steps. cbn [seq map]. f_equal.
  rewrite <- seq_shift, map_map.
  apply map_ext. intros j. by rewrite after_advance.
Qed.

Lemma uneventful_advance k c :
  uneventful holos_env (S (S k)) c ->
  (~ over holos_env (advance holos_env c) /\ done_of (advance holos_env c) = false)
  /\ uneventful holos_env (S k) (advance holos_env c).
Proof.
  intros H. split.
  - apply (H 1%nat). lia.
  - intros j Hj. rewrite after_advance. apply H. lia.
Qed.

(** The loop stops at the first step whose observed power exceeds 1.2. *)
Lemma while_not_done_trips k : forall fuel c log,
  (k < fuel)%nat ->
  uneventful holos_env (S k) c ->
  over holos_env (after holos_env (S k) c) ->
  resume holos_env fuel c log
  = Some (Tripped (int 1000 * power holos_env (obs_of (after holos_env (S k) c))),
          state_of (after holos_env (S k) c),
          log ++ steps holos_env (S k) c
              ++ [CallPrint (int 1000 * power holos_env (obs_of (after holos_env (S k) c)))]).
Proof.
  induction k as [|k IH]; intros fuel c log Hfuel Hquiet Hover;
    (destruct fuel as [|fuel]; [lia|]); rewrite while_not_done_step; cbn zeta.
  - simpl in Hover. rewrite (decide_True _ _ Hover).
    by rewrite <- (assoc_L (++)).
  - destruct (uneventful_advance _ _ Hquiet) as [[Hunder Hgo] Hquiet'].
    rewrite (decide_False _ _ Hunder), Hgo.
    rewrite <- after_advance in Hover.
    rewrite (IH fuel (advance holos_env c) _ ltac:(lia) Hquiet' Hover).
    rewrite after_advance, (steps_advance (S k)).
    by rewrite <- (assoc_L (++)).
Qed.

(** The loop runs to the first step that ends the episode when no step
    trips. *)
Lemma while_not_done_completes k : forall fuel c log,
  (k < fuel)%nat ->
  uneventful holos_env (S k) c ->
  ~ over holos_env (after holos_env (S k) c) ->
  done_of (after holos_env (S k) c) = true ->
  resume holos_env fuel c log
  = Some (Done, state_of (after holos_env (S k) c), log ++ steps holos_env (S k) c).
Proof.
  induction k as [|k IH]; intros fuel c log Hfuel Hquiet Hunder Hdone;
    (destruct fuel as [|fuel]; [lia|]); rewrite while_not_done_step; cbn zeta.
  - simpl in Hunder, Hdone. by rewrite (decide_False _ _ Hunder), Hdone.
  - destruct (uneventful_advance _ _ Hquiet) as [[Hunder1 Hgo] Hquiet'].
    rewrite (decide_False _ _ Hunder1), Hgo.
    rewrite <- after_advance in Hunder, Hdone.
    rewrite (IH fuel (advance holos_env c) _ ltac:(lia) Hquiet' Hunder Hdone).
    rewrite after_advance, (steps_advance (S k)).
    by rewrite <- (assoc_L (++)).
Qed.

Lemma pid_objective_resume fuel params s :
  pid_objective holos_env fuel params s =
  match resume holos_env fuel (start holos_env params s) [CallReset] with
  | None => None
  | Some (Tripped fake_iae, s, log) => Some (Ok fake_iae, s, log)
  | Some (Done, s, log) =>
      let s := render holos_env s in
      let history := multi_env_history holos_env s in
      let log := log ++ [CallRender; CallCalcMetrics history] in
      match History.calc_metrics history with
      | Ok (_, iae, _) => Some (Ok iae, s, log ++ [CallPrint iae])
      | Raise e => Some (Raise e, s, log)
      end
  end.
Proof.
  destruct params as [[p_gain i_gain] d_gain].
  unfold pid_objective, start, resume.
  by destruct (reset holos_env s) as [obs s0].
Qed.

(** C1: let step [k] be the first step of the episode that either observes
    a power above 1.2 or ends the episode.  If it observes a power above
    1.2, the objective returns 1000 times that power, having made [k]
    [step] calls and neither [render] nor [calc_metrics].  If it does not,
    the objective finalizes the history and returns the integral absolute
    error that [calc_metrics] computes from it (or the error that
    [calc_metrics] raises). *)
Theorem pid_objective_cases (params : Qc * Qc * Qc) (s : State) (k fuel : nat) :
  let c0 := start holos_env params s in
  let ck := after holos_env k c0 in
  (0 < k <= fuel)%nat ->
  uneventful holos_env k c0 ->
  (over holos_env ck ->
   let fake_iae := int 1000 * power holos_env (obs_of ck) in
   pid_objective holos_env fuel params s
   = Some (Ok fake_iae, state_of ck,
           CallReset :: steps holos_env k c0 ++ [CallPrint fake_iae]))
  /\
  (~ over holos_env ck -> done_of ck = true ->
   let s' := render holos_env (state_of ck) in
   let history := multi_env_history holos_env s' in
   let log := CallReset :: steps holos_env k c0 ++ [CallRender; CallCalcMetrics history] in
   pid_objective holos_env fuel params s
   = match History.calc_metrics history with
     | Ok (_, iae, _) => Some (Ok iae, s', log ++ [CallPrint iae])
     | Raise e => Some (Raise e, s', log)
     end).
Proof.
  intros c0 ck Hk Hquiet. destruct k as [|k]; [lia|].
  split.
  - intros Hover fake_iae. rewrite pid_objective_resume.
    fold c0. by rewrite (while_not_done_trips k fuel c0 _ ltac:(lia) Hquiet Hover).
  - intros Hunder Hdone s' history log. rewrite pid_objective_resume.
    fold c0. rewrite (while_not_done_completes k fuel c0 _ ltac:(lia) Hquiet Hunder Hdone).
    cbn zeta. fold ck s' history. unfold log.
    by rewrite <- (assoc_L (++)).
Qed.

End ObjectiveClaims.

Section ObjectiveSamples.
Import Tuning.

(** The spike to 1.3 at step 2 costs 1300 and ends the objective there; the
    quiet episode is scored by its history. *)
Lemma pid_objective_cases_witness :
  pid_objective Samples.spiking 10 Samples.default_gains 0%nat
  = Some (Ok (int 1000 * Samples.q 13 10), 2%nat,
          CallReset
            :: steps Samples.spiking 2 (start Samples.spiking Samples.default_gains 0%nat)
            ++ [CallPrint (int 1000 * Samples.q 13 10)])
  /\
  pid_objective Samples.quiet 10 Samples.default_gains 0%nat
  = match History.calc_metrics Samples.short_run with
    | Ok (_, iae, _) =>
        Some (Ok iae, 3%nat,
              (CallReset
                 :: steps Samples.quiet 3 (start Samples.quiet Samples.default_gains 0%nat)
                 ++ [CallRender; CallCalcMetrics Samples.short_run])
              ++ [CallPrint iae])
    | Raise e =>
        Some (Raise e, 3%nat,
              CallReset
                :: steps Samples.quiet 3 (start Samples.quiet Samples.default_gains 0%nat)
                ++ [CallRender; CallCalcMetrics Samples.short_run])
    end.
Proof.
  split.
  - refine (proj1 (pid_objective_cases Samples.spiking Samples.default_gains
                     0%nat 2 10 _ _) _).
    + lia.
    + intros j Hj. assert (j = 1%nat) as -> by lia.
      split; [by vm_compute | reflexivity].
    + by vm_compute.
  - refine (proj2 (pid_objective_cases Samples.quiet Samples.default_gains
                     0%nat 3 10 _ _) _ _).
    + lia.
    + intros j Hj. assert (j = 1%nat \/ j = 2%nat) as [-> | ->] by lia;
        (split; [by vm_compute | reflexivity]).
    + by vm_compute.
    + reflexivity.
Defined.

(** The numbers of the two sample episodes. *)
Example pid_objective_samples :
  fst <$> pid_objective Samples.spiking 10 Samples.default_gains 0%nat
  = Some (Ok (int 1300), 2%nat)
  /\ fst <$> pid_objective Samples.quiet 10 Samples.default_gains 0%nat
     = Some (Ok (Samples.q 7 100), 3%nat)
  /\ pid_objective Samples.quiet 2 Samples.default_gains 0%nat = None.
Proof.
  split; [|split]; vm_compute.
  - do 3 f_equal. qc_eq.
  - reflexivity.
  - reflexivity.
Qed.

End ObjectiveSamples.

(** ** The sequential multi-agent control loop *)

Section MarlClaims.
Import Marl.
Context {State Obs Act : Type} (model : Policy Obs Act) (env : AECEnv State Obs Act).

(** A turn whose agent is terminated or truncated ends the loop: the last
    transition is read, nothing else is called. *)
Lemma agent_loop_break iters s log obs terminated truncated :
  has_next env s = true ->
  last env s = (obs, terminated, truncated) ->
  terminated || truncated = true ->
  agent_loop model env (S iters) s log = (s, log ++ [CallLast terminated truncated]).
Proof. intros Hnext Hlast Hterm. simpl. by rewrite Hnext, Hlast, Hterm. Qed.

(** Any other turn reads the last transition, asks the policy, steps the
    environment and goes on with the next agent. *)
Lemma agent_loop_act iters s log obs terminated truncated :
  has_next env s = true ->
  last env s = (obs, terminated, truncated) ->
  terminated || truncated = false ->
  agent_loop model env (S iters) s log
  = agent_loop model env iters (step env (predict model obs) s)
      (log ++ [CallLast terminated truncated; CallPredict obs;
               CallStep (predict model obs)]).
Proof.
  intros Hnext Hlast Hterm. simpl. rewrite Hnext, Hlast, Hterm.
  by rewrite <- !(assoc_L (++)).
Qed.

(** Whatever the environment does, the calls of the loop are a sequence of
    checked turns. *)
Lemma agent_loop_checked iters : forall s log,
  exists turns,
    (agent_loop model env iters s log).2 = log ++ turns /\
    checked_turns model turns.
Proof.
  induction iters as [|iters IH]; intros s log.
  - exists []. split; [by rewrite (right_id_L [] (++)) | constructor].
  - destruct (has_next env s) eqn:Hnext.
    + destruct (last env s) as [[obs terminated] truncated] eqn:Hlast.
      destruct (terminated || truncated) eqn:Hterm.
      * rewrite (agent_loop_break _ _ _ _ _ _ Hnext Hlast Hterm).
        eexists. split; [done | by constructor].
      * rewrite (agent_loop_act _ _ _ _ _ _ Hnext Hlast Hterm).
        destruct (IH (step env (predict model obs) s)
                     (log ++ [CallLast terminated truncated; CallPredict obs;
                              CallStep (predict model obs)]))
          as (turns & Hlog & Hturns).
        exists (CallLast terminated truncated :: CallPredict obs
                  :: CallStep (predict model obs) :: turns).
        split; [by rewrite Hlog, <- (assoc_L (++)) | by constructor].
    + exists []. simpl. rewrite Hnext.
      split; [by rewrite (right_id_L [] (++)) | constructor].
Qed.

(** C4: every agent turn reads the agent's last transition before anything
    else and, when it reports terminated or truncated, ends the loop there;
    so the calls of the whole loop are [reset], checked turns, [render]; and
    when the first agent reports [terminated] on turn 1, the loop makes the
    calls [reset], [last], [render] only: no [predict], no [step]. *)
Theorem marl_control_loop_checks_first (max_iter : nat) (s : State) :
  (forall iters s' log obs terminated truncated,
     has_next env s' = true ->
     last env s' = (obs, terminated, truncated) ->
     terminated || truncated = true ->
     agent_loop model env (S iters) s' log
     = (s', log ++ [CallLast terminated truncated]))
  /\
  (exists turns,
     (marl_control_loop model env max_iter s).2 = CallReset :: turns ++ [CallRender] /\
     checked_turns model turns)
  /\
  (forall obs truncated,
     (0 < max_iter)%nat ->
     has_next env (reset env s) = true ->
     last env (reset env s) = (obs, true, truncated) ->
     marl_control_loop model env max_iter s
     = (render env (reset env s), [CallReset; CallLast true truncated; CallRender])
     /\ Forall (fun c => acts c = false) (marl_control_loop model env max_iter s).2).
Proof.
  split; [|split].
  - intros iters s' log obs terminated truncated. apply agent_loop_break.
  - unfold marl_control_loop.
    destruct (agent_loop_checked max_iter (reset env s) [CallReset])
      as (turns & Hlog & Hturns).
    destruct (agent_loop model env max_iter (reset env s) [CallReset]) as [s' log].
    simpl in Hlog. subst log. by exists turns.
  - intros obs truncated Hiter Hnext Hlast.
    destruct max_iter as [|iters]; [lia|].
    unfold marl_control_loop.
    rewrite (agent_loop_break iters _ [CallReset] obs true truncated Hnext Hlast eq_refl).
    split; [done | by repeat constructor].
Qed.

End MarlClaims.

Section MarlSamples.
Import Marl.

(** With the first agent already terminated, five allowed turns give one
    [last] and nothing else. *)
Lemma marl_control_loop_checks_first_witness :
  marl_control_loop Samples.idle (Samples.countdown 0) 5 7%nat
  = (0%nat, [CallReset; CallLast true false; CallRender])
  /\ Forall (fun c => acts c = false)
       (marl_control_loop Samples.idle (Samples.countdown 0) 5 7%nat).2.
Proof.
  destruct (marl_control_loop_checks_first Samples.idle (Samples.countdown 0) 5 7%nat)
    as (_ & _ & H).
  apply (H 0%nat false); [lia | reflexivity | reflexivity].
Defined.

(** Two turns are played before the third agent reports terminated. *)
Example marl_control_loop_countdown :
  marl_control_loop Samples.idle (Samples.countdown 2) 5 7%nat
  = (2%nat, [CallReset;
             CallLast false false; CallPredict 0%nat; CallStep [0];
             CallLast false false; CallPredict 1%nat; CallStep [0];
             CallLast true false; CallRender]).
Proof. reflexivity. Qed.

End MarlSamples.

(** * Further properties *)

(** ** Saturation of the controller *)

Section Saturation.
Import PID.

(** With a rate limit [max_rate >= 0]: a raw command within the limits is
    returned as it is, one above is replaced by [max_rate], one below by
    [-max_rate]. *)
Theorem update_saturation (c : PIDController) (measurement setpoint : Qc) :
  0 <= max_rate c ->
  let raw := raw_command (update_spec c measurement setpoint) in
  let out := (update c measurement setpoint).1 in
  (- max_rate c <= raw <= max_rate c -> out = [raw]) /\
  (max_rate c < raw -> out = [max_rate c]) /\
  (raw < - max_rate c -> out = [- max_rate c]).
Proof.
  intros Hrate raw out.
  assert (Hout : out = [clamp raw (- max_rate c) (max_rate c)]) by apply np_clip_clamp.
  rewrite Hout, (clamp_cases _ _ _ (Qcopp_le_self _ Hrate)).
  repeat split.
  - intros [Hlo Hhi].
    rewrite decide_False by by apply Qcle_not_lt.
    by rewrite decide_False by by apply Qcle_not_lt.
  - intros Hhi.
    rewrite decide_False, decide_True; [done | done |].
    apply Qcle_not_lt. trans (max_rate c); [by apply Qcopp_le_self | by apply Qclt_le_weak].
  - intros Hlo. by rewrite decide_True.
Qed.

Lemma update_saturation_witness :
  let c := PID.default in
  let raw := raw_command (update_spec c 0 (int 100)) in
  let out := (update c 0 (int 100)).1 in
  (- max_rate c <= raw <= max_rate c -> out = [raw]) /\
  (max_rate c < raw -> out = [max_rate c]) /\
  (raw < - max_rate c -> out = [- max_rate c]).
Proof. apply (update_saturation PID.default 0 (int 100)). by vm_compute. Defined.

End Saturation.

(** ** The single-agent control loops *)

Section SingleLoops.
Import Tuning Loops.
Context {State Obs : Type} (single_env : HolosSingle State Obs).

(** One iteration of the loop of [pid_loop] is one step of the episode. *)
Lemma pid_while_step fuel c log :
  pid_while single_env (S fuel) (controller_of c) (obs_of c) (state_of c) log =
  let c' := advance single_env c in
  let log' := log ++ [Tuning.CallStep (action_of c')] in
  if done_of c' then Some (state_of c', log')
  else pid_while single_env fuel (controller_of c') (obs_of c') (state_of c') log'.
Proof.
  unfold advance. simpl.
  by destruct (step single_env _ (state_of c)) as [[[obs' terminated] truncated] s'].
Qed.

Lemma pid_while_runs k : forall fuel c log,
  (k < fuel)%nat ->
  (forall j, (0 < j < S k)%nat -> done_of (after single_env j c) = false) ->
  done_of (after single_env (S k) c) = true ->
  pid_while single_env fuel (controller_of c) (obs_of c) (state_of c) log
  = Some (state_of (after single_env (S k) c), log ++ steps single_env (S k) c).
Proof.
  induction k as [|k IH]; intros fuel c log Hfuel Hgo Hdone;
    (destruct fuel as [|fuel]; [lia|]); rewrite pid_while_step; cbn zeta.
  - simpl in Hdone. by rewrite Hdone.
  - rewrite (Hgo 1%nat ltac:(lia) : done_of (advance single_env c) = false).
    rewrite <- after_advance in Hdone.
    rewrite (IH fuel (advance single_env c) _ ltac:(lia)); [| |done].
    + rewrite after_advance, (steps_advance _ (S k)).
      by rewrite <- (assoc_L (++)).
    + intros j Hj. rewrite after_advance. apply Hgo. lia.
Qed.

Lemma pid_while_none fuel : forall c log,
  pid_while single_env fuel (controller_of c) (obs_of c) (state_of c) log = None
  <-> forall j, (0 < j <= fuel)%nat -> done_of (after single_env j c) = false.
Proof.
  induction fuel as [|fuel IH]; intros c log.
  - split; [intros _ j Hj; lia | done].
  - rewrite pid_while_step. cbn zeta.
    destruct (done_of (advance single_env c)) eqn:Hdone.
    + split; [done|]. intros Hall.
      specialize (Hall 1%nat ltac:(lia)). simpl in Hall. congruence.
    + rewrite IH. split.
      * intros Hall j Hj. destruct j as [|j]; [lia|].
        destruct j as [|j]; [done|].
        rewrite <- after_advance. apply Hall. lia.
      * intros Hall j Hj. rewrite after_advance. apply Hall. lia.
Qed.

Lemma pid_loop_start fuel s :
  pid_loop single_env fuel s =
  let c0 := start single_env default_params s in
  match pid_while single_env fuel (controller_of c0) (obs_of c0) (state_of c0)
          [Tuning.CallReset] with
  | None => None
  | Some (s, log) => Some (render single_env s, log ++ [Tuning.CallRender])
  end.
Proof.
  unfold pid_loop, start, default_params.
  by destruct (reset single_env s) as [obs s0].
Qed.

(** [pid_loop] drives the default controller to the first step that reports
    terminated or truncated, and finalizes once, after it: its calls are
    [reset], the steps up to that one, [render]. *)
Theorem pid_loop_runs_to_done (s : State) (k fuel : nat) :
  let c0 := start single_env default_params s in
  (0 < k <= fuel)%nat ->
  (forall j, (0 < j < k)%nat -> done_of (after single_env j c0) = false) ->
  done_of (after single_env k c0) = true ->
  pid_loop single_env fuel s
  = Some (render single_env (state_of (after single_env k c0)),
          Tuning.CallReset :: steps single_env k c0 ++ [Tuning.CallRender]).
Proof.
  intros c0 Hk Hgo Hdone. destruct k as [|k]; [lia|].
  rewrite pid_loop_start. cbn zeta. fold c0.
  rewrite (pid_while_runs k fuel c0 _ ltac:(lia) Hgo Hdone).
  by rewrite <- (assoc_L (++)).
Qed.

(** [pid_loop] has no step limit of its own: within [fuel] iterations it
    fails to return exactly when none of the first [fuel] steps reports
    terminated or truncated. *)
Theorem pid_loop_ends_only_on_done (s : State) (fuel : nat) :
  pid_loop single_env fuel s = None
  <-> forall j, (0 < j <= fuel)%nat ->
        done_of (after single_env j (start single_env default_params s)) = false.
Proof.
  rewrite pid_loop_start. cbn zeta.
  rewrite <- (pid_while_none fuel _ [Tuning.CallReset]).
  by destruct (pid_while single_env fuel _ _ _ _) as [[s' log]|].
Qed.

(** With the default gains and no step above 1.2, the tuning objective
    drives the environment exactly as [pid_loop] does, then scores the
    history that [pid_loop] leaves behind. *)
Theorem pid_objective_scores_pid_loop (s : State) (k fuel : nat) :
  let c0 := start single_env default_params s in
  (0 < k <= fuel)%nat ->
  uneventful single_env k c0 ->
  ~ over single_env (after single_env k c0) ->
  done_of (after single_env k c0) = true ->
  exists s' log,
    pid_loop single_env fuel s = Some (s', log) /\
    let history := multi_env_history single_env s' in
    pid_objective single_env fuel default_params s
    = match History.calc_metrics history with
      | Ok (_, iae, _) =>
          Some (Ok iae, s', (log ++ [CallCalcMetrics history]) ++ [CallPrint iae])
      | Raise e => Some (Raise e, s', log ++ [CallCalcMetrics history])
      end.
Proof.
  intros c0 Hk Hquiet Hunder Hdone. destruct k as [|k]; [lia|].
  eexists _, _. split.
  - apply (pid_loop_runs_to_done s (S k) fuel Hk); [|done].
    intros j Hj. by apply Hquiet.
  - cbn zeta. rewrite pid_objective_resume. fold c0.
    rewrite (while_not_done_completes _ k fuel c0 _ ltac:(lia) Hquiet Hunder Hdone).
    cbn zeta.
    replace (([Tuning.CallReset] ++ steps single_env (S k) c0)
               ++ [Tuning.CallRender; CallCalcMetrics
                     (multi_env_history single_env
                        (render single_env (state_of (after single_env (S k) c0))))])
      with ((Tuning.CallReset :: steps single_env (S k) c0 ++ [Tuning.CallRender])
              ++ [CallCalcMetrics
                    (multi_env_history single_env
                       (render single_env (state_of (after single_env (S k) c0))))]).
    + done.
    + simpl. f_equal. by rewrite <- (assoc_L (++)).
Qed.

Variable model : Policy Obs.

End SingleLoops.

Section SingleLoopSamples.
Import Tuning Loops.

Lemma pid_loop_runs_to_done_witness :
  pid_loop Samples.quiet 10 0%nat
  = Some (3%nat,
          Tuning.CallReset
            :: steps Samples.quiet 3 (start Samples.quiet default_params 0%nat)
            ++ [Tuning.CallRender]).
Proof.
  apply (pid_loop_runs_to_done Samples.quiet 0%nat 3 10).
  - lia.
  - intros j Hj. by assert (j = 1%nat \/ j = 2%nat) as [-> | ->] by lia.
  - reflexivity.
Defined.

Lemma pid_objective_scores_pid_loop_witness :
  exists s' log,
    pid_loop Samples.quiet 10 0%nat = Some (s', log) /\
    let history := multi_env_history Samples.quiet s' in
    pid_objective Samples.quiet 10 default_params 0%nat
    = match History.calc_metrics history with
      | Ok (_, iae, _) =>
          Some (Ok iae, s', (log ++ [CallCalcMetrics history]) ++ [CallPrint iae])
      | Raise e => Some (Raise e, s', log ++ [CallCalcMetrics history])
      end.
Proof.
  apply (pid_objective_scores_pid_loop Samples.quiet 0%nat 3 10).
  - lia.
  - intros j Hj. assert (j = 1%nat \/ j = 2%nat) as [-> | ->] by lia;
      (split; [by vm_compute | reflexivity]).
  - by vm_compute.
  - reflexivity.
Defined.

End SingleLoopSamples.

(** ** The multi-agent loop turn by turn *)

Section MarlTurns.
Import Marl MarlEval.
Context {State Obs Act : Type} (model : Policy Obs Act) (env : AECEnv State Obs Act).

Lemma playing_act k s :
  playing model env (S k) s ->
  (has_next env s = true /\ terminal env s = false) /\ playing model env k (act model env s).
Proof.
  intros H. split; [apply (H 0%nat); lia|].
  intros j Hj. apply (H (S j)). lia.
Qed.

(** [k] turns in which the policy acts are [k] iterations of the loop. *)
Lemma agent_loop_played k : forall iters s log,
  playing model env k s ->
  agent_loop model env (k + iters) s log
  = agent_loop model env iters (played model env k s)
      (log ++ turns_played model env k s).
Proof.
  induction k as [|k IH]; intros iters s log Hplay.
  - simpl. by rewrite (right_id_L [] (++)).
  - destruct (playing_act _ _ Hplay) as [[Hnext Hterm] Hplay'].
    unfold terminal in Hterm.
    destruct (last env s) as [[obs terminated] truncated] eqn:Hlast.
    change (S k + iters)%nat with (S (k + iters)).
    rewrite (agent_loop_act model env _ _ _ _ _ _ Hnext Hlast Hterm).
    assert (Hact : act model env s = step env (predict model obs) s)
      by (unfold act; by rewrite Hlast).
    assert (Hturn : turn model env s
                    = [CallLast terminated truncated; CallPredict obs;
                       CallStep (predict model obs)])
      by (unfold turn; by rewrite Hlast).
    rewrite <- Hact, <- Hturn, (IH _ _ _ Hplay').
    cbn [played turns_played]. by rewrite <- (assoc_L (++)).
Qed.

(** The loop stops at the first agent that reports terminated or truncated:
    after [k] turns in which the policy acted, the [k+1]-th agent is read,
    nothing is predicted or stepped for it, no later agent is read, and the
    environment is finalized as that turn found it. *)
Theorem marl_control_loop_stops_at_terminal (max_iter k : nat) (s : State) :
  let s0 := reset env s in
  let sk := played model env k s0 in
  (k < max_iter)%nat ->
  playing model env k s0 ->
  has_next env sk = true ->
  terminal env sk = true ->
  marl_control_loop model env max_iter s
  = (render env sk,
     CallReset :: turns_played model env k s0
       ++ [CallLast (last env sk).1.2 (last env sk).2; CallRender]).
Proof.
  intros s0 sk Hk Hplay Hnext Hterm. unfold marl_control_loop. fold s0.
  replace max_iter with (k + S (max_iter - S k))%nat by lia.
  rewrite (agent_loop_played k _ s0 _ Hplay). fold sk.
  unfold terminal in Hterm.
  destruct (last env sk) as [[obs terminated] truncated] eqn:Hlast.
  rewrite (agent_loop_break model env _ _ _ _ _ _ Hnext Hlast Hterm).
  simpl. by rewrite <- (assoc_L (++)).
Qed.

(** Without a terminal agent the loop ends when the iterator does: after
    [max_iter] turns, or earlier when the environment has no agent left;
    the environment is finalized all the same. *)
Theorem marl_control_loop_iterator_ends (max_iter k : nat) (s : State) :
  let s0 := reset env s in
  let sk := played model env k s0 in
  playing model env k s0 ->
  k = max_iter \/ ((k < max_iter)%nat /\ has_next env sk = false) ->
  marl_control_loop model env max_iter s
  = (render env sk, CallReset :: turns_played model env k s0 ++ [CallRender]).
Proof.
  intros s0 sk Hplay Hend. unfold marl_control_loop. fold s0.
  destruct Hend as [<- | [Hk Hnone]].
  - replace k with (k + 0)%nat at 1 by lia.
    rewrite (agent_loop_played k _ s0 _ Hplay). by simpl.
  - replace max_iter with (k + S (max_iter - S k))%nat by lia.
    rewrite (agent_loop_played k _ s0 _ Hplay). fold sk.
    simpl. by rewrite Hnone.
Qed.

Lemma calls_where_app kind (l1 l2 : list (call Obs Act)) :
  calls_where kind (l1 ++ l2) = (calls_where kind l1 + calls_where kind l2)%nat.
Proof. unfold calls_where. by rewrite List.filter_app, length_app. Qed.

Lemma agent_loop_counts iters : forall s log,
  exists turns,
    (agent_loop model env iters s log).2 = log ++ turns /\
    calls_where is_predict turns = calls_where is_step turns /\
    (calls_where is_predict turns <= iters)%nat /\
    (calls_where is_last turns <= iters)%nat /\
    (calls_where is_last turns <= calls_where is_predict turns + 1)%nat.
Proof.
  induction iters as [|iters IH]; intros s log.
  - exists []. split; [by rewrite (right_id_L [] (++))|]. cbn. lia.
  - destruct (has_next env s) eqn:Hnext.
    + destruct (last env s) as [[obs terminated] truncated] eqn:Hlast.
      destruct (terminated || truncated) eqn:Hterm.
      * rewrite (agent_loop_break model env _ _ _ _ _ _ Hnext Hlast Hterm).
        exists [CallLast terminated truncated]. split; [done|]. cbn. lia.
      * rewrite (agent_loop_act model env _ _ _ _ _ _ Hnext Hlast Hterm).
        destruct (IH (step env (predict model obs) s)
                     (log ++ [CallLast terminated truncated; CallPredict obs;
                              CallStep (predict model obs)]))
          as (turns & -> & Heq & Hp & Hl & Hlp).
        exists ([CallLast terminated truncated; CallPredict obs;
                 CallStep (predict model obs)] ++ turns).
        split; [by rewrite <- (assoc_L (++))|].
        rewrite !calls_where_app. cbn. lia.
    + exists []. simpl. rewrite Hnext.
      split; [by rewrite (right_id_L [] (++))|]. cbn. lia.
Qed.

(** The loop steps the environment once for every prediction, at most
    [max_iter] times, and reads at most one last transition more than it
    predicts. *)
Theorem marl_control_loop_counts (max_iter : nat) (s : State) :
  let log := (marl_control_loop model env max_iter s).2 in
  calls_where is_step log = calls_where is_predict log /\
  (calls_where is_predict log <= max_iter)%nat /\
  (calls_where is_last log <= max_iter)%nat /\
  (calls_where is_last log <= calls_where is_predict log + 1)%nat.
Proof.
  unfold marl_control_loop.
  destruct (agent_loop_counts max_iter (reset env s) [CallReset])
    as (turns & Hlog & Heq & Hp & Hl & Hlp).
  destruct (agent_loop model env max_iter (reset env s) [CallReset]) as [s' log'].
  simpl in Hlog. subst log'. cbn zeta. cbn [snd].
  change (CallReset :: turns) with ([CallReset] ++ turns).
  rewrite !calls_where_app. unfold calls_where in *. simpl. lia.
Qed.

End MarlTurns.

Section MarlTurnSamples.
Import Marl MarlEval.

Lemma marl_control_loop_stops_at_terminal_witness :
  marl_control_loop Samples.idle (Samples.countdown 2) 5 7%nat
  = (2%nat,
     CallReset :: turns_played Samples.idle (Samples.countdown 2) 2 0%nat
       ++ [CallLast true false; CallRender]).
Proof.
  apply (marl_control_loop_stops_at_terminal Samples.idle (Samples.countdown 2) 5 2 7%nat).
  - lia.
  - intros j Hj. by assert (j = 0%nat \/ j = 1%nat) as [-> | ->] by lia.
  - reflexivity.
  - reflexivity.
Defined.

Lemma marl_control_loop_iterator_ends_witness :
  marl_control_loop Samples.idle (Samples.countdown 9) 2 7%nat
  = (2%nat,
     CallReset :: turns_played Samples.idle (Samples.countdown 9) 2 0%nat
       ++ [CallRender]).
Proof.
  apply (marl_control_loop_iterator_ends Samples.idle (Samples.countdown 9) 2 2 7%nat).
  - intros j Hj. by assert (j = 0%nat \/ j = 1%nat) as [-> | ->] by lia.
  - by left.
Defined.

End MarlTurnSamples.

(** ** More on the metrics *)

Section MoreMetrics.
Import History.







(** What a returned result tells about the history. *)
Lemma calc_metrics_ok h m :
  calc_metrics h = Ok m ->
  exists r0 r1 rest,
    h = r0 :: r1 :: rest /\ time r1 - time r0 = 1 /\ m = metrics_spec h.
Proof.
  destruct h as [|r0 [|r1 rest]]; [done | done |].
  rewrite (calc_metrics_checked (r0 :: r1 :: rest) (time r0) (time r1)) by done.
  destruct (decide (time r1 - time r0 = 1)) as [Hstep|Hstep].
  - rewrite (bool_decide_eq_true_2 _ Hstep). intros [= <-]. by eauto 6.
  - by rewrite (bool_decide_eq_false_2 _ Hstep).
Qed.

(** A history with fewer than two rows has no second time value:
    [calc_metrics] raises [KeyError(1)], also on an empty history. *)
Theorem calc_metrics_short_history (h : DataFrame) :
  (length h < 2)%nat -> calc_metrics h = Raise (KeyError 1).
Proof. destruct h as [|r0 [|r1 rest]]; simpl; intros; (lia || done). Qed.

Lemma calc_metrics_short_history_witness :
  calc_metrics [Samples.row 0 1 1 lit_77_8] = Raise (KeyError 1).
Proof. apply calc_metrics_short_history. simpl. lia. Defined.







End MoreMetrics.

(** ** More on the artifact locator *)

Section MoreLocator.
Import Files.

(** In the listing, everything before the entry that comes first after
    sorting is strictly older: of several newest entries the one listed
    first wins. *)
Lemma sorted_reverse_first_split (key : Path -> Qc) l : forall x rest,
  sorted_reverse key l = x :: rest ->
  exists before after,
    l = before ++ x :: after /\ forall q, q ∈ before -> key q < key x.
Proof.
  induction l as [|a l IH]; intros x rest; [done|].
  simpl. destruct (sorted_reverse key l) as [|y r] eqn:Hsort.
  - intros [= <- <-]. exists [], l. split; [done|].
    intros q Hq. by apply not_elem_of_nil in Hq.
  - simpl. destruct (decide (key a < key y)) as [Hlt|Hge].
    + intros [= <- <-].
      destruct (IH y r eq_refl) as (before & after & -> & Hold).
      exists (a :: before), after. split; [done|].
      intros q Hq. apply elem_of_cons in Hq as [->|Hq]; [done | by apply Hold].
    + intros [= <- <-]. exists [], l. split; [done|].
      intros q Hq. by apply not_elem_of_nil in Hq.
Qed.

(** What a returned path went through. *)
Lemma find_latest_file_ok fs folder_path pattern p :
  find_latest_file fs folder_path pattern = Ok p ->
  path_exists fs folder_path = true /\
  is_file fs p = true /\
  exists rest, sorted_reverse (getmtime fs) (glob fs folder_path pattern) = p :: rest.
Proof.
  unfold find_latest_file.
  destruct (path_exists fs folder_path); [|done].
  destruct (glob fs folder_path pattern) as [|a l] eqn:Hglob; [done|].
  cbn [assert any_path]. change (Ok () ≫= ?f) with (f ()). cbv beta.
  destruct (sorted_reverse (getmtime fs) (a :: l)) as [|x rest] eqn:Hsort; [done|].
  change (first_item (x :: rest) ≫= ?f) with (f x). cbv beta.
  destruct (is_file fs x) eqn:Hfile; [|done].
  intros [= <-]. by eauto.
Qed.

(** A path that [find_latest_file] returns is a regular file among the
    matches of an existing directory, and no match is newer. *)
Theorem find_latest_file_sound (fs : FileSystem) (folder_path : Path)
    (pattern : string) (p : Path) :
  find_latest_file fs folder_path pattern = Ok p ->
  path_exists fs folder_path = true /\
  p ∈ glob fs folder_path pattern /\
  is_file fs p = true /\
  forall q, q ∈ glob fs folder_path pattern -> getmtime fs q <= getmtime fs p.
Proof.
  intros Hok. destruct (find_latest_file_ok _ _ _ _ Hok) as (Hex & Hfile & rest & Hsort).
  destruct (sorted_reverse_first _ _ _ _ Hsort) as [Hin Hmax].
  done.
Qed.

Lemma find_latest_file_sound_witness :
  path_exists Samples.models_only "runs/models" = true /\
  "runs/models/ppo_marl_24000_steps.zip" ∈ glob Samples.models_only "runs/models" "*.zip" /\
  is_file Samples.models_only "runs/models/ppo_marl_24000_steps.zip" = true /\
  forall q, q ∈ glob Samples.models_only "runs/models" "*.zip" ->
            getmtime Samples.models_only q
            <= getmtime Samples.models_only "runs/models/ppo_marl_24000_steps.zip".
Proof. by apply (find_latest_file_sound Samples.models_only "runs/models" "*.zip"). Defined.

(** Ties are broken by the order of the listing: every match listed before
    the returned path is strictly older than it, and none listed after it
    is newer. *)
Theorem find_latest_file_first_of_newest (fs : FileSystem) (folder_path : Path)
    (pattern : string) (p : Path) :
  find_latest_file fs folder_path pattern = Ok p ->
  exists before after,
    glob fs folder_path pattern = before ++ p :: after /\
    (forall q, q ∈ before -> getmtime fs q < getmtime fs p) /\
    (forall q, q ∈ after -> getmtime fs q <= getmtime fs p).
Proof.
  intros Hok. destruct (find_latest_file_ok _ _ _ _ Hok) as (_ & _ & rest & Hsort).
  destruct (sorted_reverse_first _ _ _ _ Hsort) as [_ Hmax].
  destruct (sorted_reverse_first_split _ _ _ _ Hsort) as (before & after & Hsplit & Hold).
  exists before, after. split; [done|]. split; [done|].
  intros q Hq. apply Hmax. rewrite Hsplit.
  apply elem_of_app. right. by apply list_elem_of_further.
Qed.

Lemma find_latest_file_first_of_newest_witness :
  exists before after,
    glob MoreSamples.models_tied "runs/marl/models" "*.zip"
    = before ++ "runs/marl/models/ppo_marl_24000_steps.zip" :: after /\
    (forall q, q ∈ before ->
       getmtime MoreSamples.models_tied q
       < getmtime MoreSamples.models_tied "runs/marl/models/ppo_marl_24000_steps.zip") /\
    (forall q, q ∈ after ->
       getmtime MoreSamples.models_tied q
       <= getmtime MoreSamples.models_tied "runs/marl/models/ppo_marl_24000_steps.zip").
Proof.
  by apply (find_latest_file_first_of_newest MoreSamples.models_tied
              "runs/marl/models" "*.zip").
Defined.

End MoreLocator.

(** ** More on the history loader *)

Section MoreLoader.
Import Files History.

(** What a returned history went through. *)
Lemma load_history_ok fs history_path h :
  load_history fs history_path = Ok h ->
  path_exists fs history_path = true /\
  read_csv fs history_path = Ok h /\
  exists r rest, h = r :: rest /\ desired_power r = 1 /\ drum_8 r = lit_77_8.
Proof.
  unfold load_history.
  destruct (path_exists fs history_path); [|done].
  destruct (read_csv fs history_path) as [[|r rest]|e]; [done| |done].
  simpl.
  destruct (decide (desired_power r = 1)) as [Hp|Hp];
    [rewrite (bool_decide_eq_true_2 _ Hp) | by rewrite (bool_decide_eq_false_2 _ Hp)].
  destruct (decide (drum_8 r = lit_77_8)) as [Hd|Hd];
    [rewrite (bool_decide_eq_true_2 _ Hd) | by rewrite (bool_decide_eq_false_2 _ Hd)].
  intros [= <-]. by eauto 8.
Qed.

(** A history that [load_history] returns is the table of an existing file,
    unchanged, and its first row is at steady state. *)
Theorem load_history_sound (fs : FileSystem) (history_path : Path) (h : DataFrame) :
  load_history fs history_path = Ok h ->
  path_exists fs history_path = true /\
  read_csv fs history_path = Ok h /\
  exists r rest, h = r :: rest /\ desired_power r = 1 /\ drum_8 r = lit_77_8.
Proof. apply load_history_ok. Qed.

Lemma load_history_sound_witness :
  path_exists Samples.run_folder "runs/pid/run_history_1.csv" = true /\
  read_csv Samples.run_folder "runs/pid/run_history_1.csv" = Ok Samples.short_run /\
  exists r rest, Samples.short_run = r :: rest /\ desired_power r = 1 /\ drum_8 r = lit_77_8.
Proof. by apply (load_history_sound Samples.run_folder "runs/pid/run_history_1.csv"). Defined.

(** Before the first row is looked at: a missing path is an assertion error
    without message whatever could be read there, an error of [read_csv] is
    passed on, and a table without rows is a [KeyError(0)]. *)
Theorem load_history_before_checks (fs : FileSystem) (history_path : Path) :
  (path_exists fs history_path = false ->
   load_history fs history_path = Raise (AssertionError None))
  /\
  (forall e, path_exists fs history_path = true ->
             read_csv fs history_path = Raise e ->
             load_history fs history_path = Raise e)
  /\
  (path_exists fs history_path = true ->
   read_csv fs history_path = Ok [] ->
   load_history fs history_path = Raise (KeyError 0)).
Proof.
  unfold load_history. repeat split.
  - by intros ->.
  - by intros e -> ->.
  - by intros -> ->.
Qed.

Lemma load_history_before_checks_witness :
  load_history Samples.run_folder "runs/pid/run_history_9.csv"
  = Raise (AssertionError None).
Proof.
  destruct (load_history_before_checks Samples.run_folder "runs/pid/run_history_9.csv")
    as (H & _ & _).
  by apply H.
Defined.

(** The power of the first row is checked before its drum angle: a wrong
    power is reported whatever the angle is, a wrong angle only when the
    power is right. *)
Theorem load_history_first_failure (fs : FileSystem) (history_path : Path)
    (r : Row) (rest : DataFrame) :
  path_exists fs history_path = true ->
  read_csv fs history_path = Ok (r :: rest) ->
  (desired_power r <> 1 ->
   load_history fs history_path = Raise (AssertionError (Some initial_power_msg)))
  /\
  (desired_power r = 1 -> drum_8 r <> lit_77_8 ->
   load_history fs history_path = Raise (AssertionError (Some initial_drum_msg))).
Proof.
  intros Hexists Hread. unfold load_history. rewrite Hexists, Hread. simpl.
  split.
  - intros Hp. by rewrite (bool_decide_eq_false_2 _ Hp).
  - intros Hp Hd.
    by rewrite (bool_decide_eq_true_2 _ Hp), (bool_decide_eq_false_2 _ Hd).
Qed.

Lemma load_history_first_failure_witness :
  load_history Samples.run_folder "runs/pid/run_history_2.csv"
  = Raise (AssertionError (Some initial_power_msg)).
Proof.
  destruct (load_history_first_failure Samples.run_folder "runs/pid/run_history_2.csv"
              (Samples.row 0 (Samples.q 9 10) (Samples.q 9 10) lit_77_8)
              [Samples.row 1 1 1 lit_77_8; Samples.row 2 1 1 lit_77_8]
              eq_refl eq_refl) as [H _].
  apply H. intros Heq. by apply (f_equal this) in Heq.
Defined.

End MoreLoader.

(** ** The evaluation of a trained model *)

Section Evaluations.
Import Files History Loops.

(** A history that comes back from the run folder passed both
    validations. *)
Lemma read_back_ok fs run_folder h :
  read_back fs run_folder = Ok h ->
  exists history_path r0 r1 rest,
    find_latest_file fs run_folder "run_history*.csv" = Ok history_path /\
    read_csv fs history_path = Ok h /\
    h = r0 :: r1 :: rest /\
    desired_power r0 = 1 /\ drum_8 r0 = lit_77_8 /\ calc_metrics h = Ok (metrics_spec h).
Proof.
  unfold read_back.
  destruct (find_latest_file fs run_folder "run_history*.csv") as [path|e]; [|done].
  change (Ok path ≫= ?f) with (f path). cbv beta.
  destruct (load_history fs path) as [h'|e] eqn:Hload; [|done].
  change (Ok h' ≫= ?f) with (f h'). cbv beta.
  destruct (calc_metrics h') as [m|e] eqn:Hm; [|done].
  intros [= <-].
  destruct (load_history_ok _ _ _ Hload) as (_ & Hread & r & rest & Hh & Hp & Hd).
  destruct (calc_metrics_ok _ _ Hm) as (r0 & r1 & rest' & Hh' & Hstep & ->).
  rewrite Hh in Hh'. injection Hh' as -> ->.
  by exists path, r0, r1, rest'.
Qed.

Lemma find_latest_file_nothing fs folder_path pattern :
  path_exists fs folder_path = false \/ glob fs folder_path pattern = [] ->
  exists msg, find_latest_file fs folder_path pattern = Raise (AssertionError msg).
Proof.
  unfold find_latest_file. intros [Hmissing | Hnone].
  - rewrite Hmissing. by eexists.
  - rewrite Hnone. destruct (path_exists fs folder_path); by eexists.
Qed.

Context {State Obs : Type}.
Variable ws : Workspace State Obs.
Variable test_env : Tuning.HolosSingle State Obs.

(** A history that [test_trained_rl] returns was produced as follows: the
    newest [*.zip] of the models folder, as it stood before the episode,
    was loaded; the control loop ran to its end with that model; the newest
    [run_history*.csv] of the run folder, as it stood after the episode, was
    read; it has at least two rows and its first row is at steady state. *)
Theorem test_trained_rl_returns_validated (fuel : nat) (run_folder : Path)
    (s s' : State) (log : list (rl_call Obs)) (h : DataFrame) :
  test_trained_rl ws test_env fuel run_folder s = Some (Ok h, s', log) ->
  exists model_path model history_path r0 r1 rest,
    find_latest_file (files ws s) (joinpath run_folder "models") "*.zip" = Ok model_path /\
    PPO_load ws model_path = Ok model /\
    rl_control_loop test_env model fuel s = Some (s', log) /\
    find_latest_file (files ws s') run_folder "run_history*.csv" = Ok history_path /\
    read_csv (files ws s') history_path = Ok h /\
    h = r0 :: r1 :: rest /\
    desired_power r0 = 1 /\ drum_8 r0 = lit_77_8.
Proof.
  unfold test_trained_rl.
  destruct (find_latest_file (files ws s) _ "*.zip") as [model_path|e]; [|done].
  destruct (PPO_load ws model_path) as [model|e] eqn:Hmodel; [|done].
  destruct (rl_control_loop test_env model fuel s) as [[s1 log1]|] eqn:Hrun; [|done].
  intros [= Hback <- <-].
  destruct (read_back_ok _ _ _ Hback)
    as (path & r0 & r1 & rest & Hpath & Hread & Hh & Hp & Hd & _).
  by exists model_path, model, path, r0, r1, rest.
Qed.

(** Without a model nothing is run: when the models folder is missing or
    holds no [*.zip], [test_trained_rl] raises an assertion error without a
    single call to the environment, whatever the fuel. *)
Theorem test_trained_rl_needs_model (fuel : nat) (run_folder : Path) (s : State) :
  path_exists (files ws s) (joinpath run_folder "models") = false
  \/ glob (files ws s) (joinpath run_folder "models") "*.zip" = [] ->
  exists msg,
    test_trained_rl ws test_env fuel run_folder s
    = Some (Raise (AssertionError msg), s, []).
Proof.
  intros Hnothing. unfold test_trained_rl.
  destruct (find_latest_file_nothing _ _ _ Hnothing) as [msg ->].
  by exists msg.
Qed.

End Evaluations.

Section MarlEvaluations.
Import Files History Marl MarlEval.
Context {State Obs Act : Type}.
Variable ws : Workspace State Obs Act.
Variable test_env : AECEnv State Obs Act.

(** The same for [test_trained_marl]: a returned history is the newest
    [run_history*.csv] of the run folder after the multi-agent loop ran with
    the newest model; it has at least two rows and its first row is at
    steady state. *)
Theorem test_trained_marl_returns_validated (max_iter : nat) (run_folder : Path)
    (s s' : State) (log : list (call Obs Act)) (h : DataFrame) :
  test_trained_marl ws test_env max_iter run_folder s = (Ok h, s', log) ->
  exists model_path model history_path r0 r1 rest,
    find_latest_file (files ws s) (Loops.joinpath run_folder "models") "*.zip"
    = Ok model_path /\
    PPO_load ws model_path = Ok model /\
    marl_control_loop model test_env max_iter s = (s', log) /\
    find_latest_file (files ws s') run_folder "run_history*.csv" = Ok history_path /\
    read_csv (files ws s') history_path = Ok h /\
    h = r0 :: r1 :: rest /\
    desired_power r0 = 1 /\ drum_8 r0 = lit_77_8.
Proof.
  unfold test_trained_marl.
  destruct (find_latest_file (files ws s) _ "*.zip") as [model_path|e]; [|done].
  destruct (PPO_load ws model_path) as [model|e] eqn:Hmodel; [|done].
  destruct (marl_control_loop model test_env max_iter s) as [s1 log1] eqn:Hrun.
  intros [= Hback <- <-].
  destruct (read_back_ok _ _ _ Hback)
    as (path & r0 & r1 & rest & Hpath & Hread & Hh & Hp & Hd & _).
  by exists model_path, model, path, r0, r1, rest.
Qed.

End MarlEvaluations.

Section EvaluationSamples.
Import Files History.

Lemma test_trained_rl_returns_validated_witness :
  exists model_path model history_path r0 r1 rest,
    find_latest_file MoreSamples.evaluated (Loops.joinpath "runs/single" "models") "*.zip"
    = Ok model_path /\
    Loops.PPO_load MoreSamples.single_workspace model_path = Ok model /\
    Loops.rl_control_loop Samples.quiet model 10 0%nat
    = Some (3%nat, Loops.DoReset
                     :: Loops.turns_of MoreSamples.echo [1; 1; Samples.q 98 100]
                     ++ [Loops.DoRender]) /\
    find_latest_file MoreSamples.evaluated "runs/single" "run_history*.csv"
    = Ok history_path /\
    read_csv MoreSamples.evaluated history_path = Ok Samples.short_run /\
    Samples.short_run = r0 :: r1 :: rest /\
    desired_power r0 = 1 /\ drum_8 r0 = lit_77_8.
Proof.
  eapply (test_trained_rl_returns_validated MoreSamples.single_workspace Samples.quiet
            10 "runs/single" 0%nat).
  reflexivity.
Defined.

Lemma test_trained_rl_needs_model_witness :
  exists msg,
    Loops.test_trained_rl MoreSamples.single_workspace Samples.quiet 0 "runs/marl" 0%nat
    = Some (Raise (AssertionError msg), 0%nat, []).
Proof.
  apply (test_trained_rl_needs_model MoreSamples.single_workspace Samples.quiet
           0 "runs/marl" 0%nat).
  by left.
Defined.

Lemma test_trained_marl_returns_validated_witness :
  exists model_path model history_path r0 r1 rest,
    find_latest_file MoreSamples.evaluated (Loops.joinpath "runs/single" "models") "*.zip"
    = Ok model_path /\
    MarlEval.PPO_load MoreSamples.marl_workspace model_path = Ok model /\
    Marl.marl_control_loop model (Samples.countdown 2) 10 0%nat
    = (2%nat,
       Marl.CallReset
         :: MarlEval.turns_played Samples.idle (Samples.countdown 2) 2 0%nat
         ++ [Marl.CallLast true false; Marl.CallRender]) /\
    find_latest_file MoreSamples.evaluated "runs/single" "run_history*.csv"
    = Ok history_path /\
    read_csv MoreSamples.evaluated history_path = Ok Samples.short_run /\
    Samples.short_run = r0 :: r1 :: rest /\
    desired_power r0 = 1 /\ drum_8 r0 = lit_77_8.
Proof.
  eapply (test_trained_marl_returns_validated MoreSamples.marl_workspace
            (Samples.countdown 2) 10 "runs/single" 0%nat).
  reflexivity.
Defined.

End EvaluationSamples.

(** ** The callback frequencies *)

Section TrainingFacts.
Import Training.

Lemma this_plus (a b : Qc) : (this (a + b) == this a + this b)%Q.
Proof. apply Qred_correct. Qed.
Lemma this_minus (a b : Qc) : (this (a - b) == this a - this b)%Q.
Proof. unfold Qcminus, Qcplus, Qcopp. simpl. rewrite !Qred_correct. reflexivity. Qed.
Lemma this_mult (a b : Qc) : (this (a * b) == this a * this b)%Q.
Proof. apply Qred_correct. Qed.
Lemma this_opp (a : Qc) : (this (- a) == - this a)%Q.
Proof. apply Qred_correct. Qed.
Lemma this_div (a b : Qc) : (this (a / b) == this a / this b)%Q.
Proof. unfold Qcdiv, Qcmult, Qcinv. simpl. rewrite !Qred_correct. reflexivity. Qed.

(** Inequalities between numbers, as inequalities between fractions. *)
Ltac to_Q :=
  unfold Qcle, Qclt in *;
  rewrite ?this_plus, ?this_minus, ?this_mult, ?this_opp, ?this_div in *.

Lemma Qfloor_unique (y : Q) (z : Z) :
  (inject_Z z <= y)%Q -> (y < inject_Z (z + 1))%Q -> Qfloor y = z.
Proof.
  intros Hlo Hhi.
  pose proof (Qfloor_le y) as Hf1. pose proof (Qlt_floor y) as Hf2.
  assert (H1 : (inject_Z (Qfloor y) < inject_Z (z + 1))%Q) by (eapply Qle_lt_trans; eauto).
  assert (H2 : (inject_Z z < inject_Z (Qfloor y + 1))%Q) by (eapply Qle_lt_trans; eauto).
  rewrite <- Zlt_Qlt in H1, H2. lia.
Qed.

Lemma floor_bounds (y : Qc) :
  (inject_Z (Qfloor y) <= y)%Q /\ (y < inject_Z (Qfloor y) + 1)%Q.
Proof.
  split; [apply Qfloor_le|].
  pose proof (Qlt_floor y) as H. by rewrite inject_Z_plus in H.
Qed.

Lemma round_half_even_near (y : Qc) :
  - half <= y - Qc_of_Z (round_half_even y) <= half.
Proof.
  destruct (floor_bounds y) as [Hlo Hhi].
  unfold round_half_even.
  destruct (decide (y - Qc_of_Z (Qfloor y) < half)) as [Hr|Hr].
  - to_Q. cbn [this Qc_of_Z half Q2Qc Qred] in *. lra.
  - destruct (decide (half < y - Qc_of_Z (Qfloor y))) as [Hr'|Hr'].
    + to_Q. cbn [this Qc_of_Z half Q2Qc] in *. rewrite inject_Z_plus. change (inject_Z 1) with 1%Q.
      change (Qred (1 # 2)) with (1 # 2) in *. lra.
    + apply Qcnot_lt_le in Hr, Hr'.
      destruct (Z.even (Qfloor y)).
      * to_Q. cbn [this Qc_of_Z half Q2Qc ] in *.
        change (Qred (1 # 2)) with (1 # 2) in *. lra.
      * to_Q. cbn [this Qc_of_Z half Q2Qc] in *. rewrite inject_Z_plus. change (inject_Z 1) with 1%Q.
        change (Qred (1 # 2)) with (1 # 2) in *. lra.
Qed.

Lemma round_half_even_small (y : Qc) :
  0 <= y -> y <= half -> round_half_even y = 0%Z.
Proof.
  intros H0 Hhalf.
  assert (Hfloor : Qfloor y = 0%Z).
  { apply Qfloor_unique.
    - exact H0.
    - unfold Qcle in *. cbn [this half Q2Qc] in *.
      change (Qred (1 # 2)) with (1 # 2) in *. change (inject_Z (0 + 1)) with 1%Q. lra. }
  unfold round_half_even. rewrite Hfloor.
  destruct (decide (y - Qc_of_Z 0 < half)); [done|].
  destruct (decide (half < y - Qc_of_Z 0)) as [Hr|]; [|done].
  exfalso. to_Q. cbn [this Qc_of_Z half Q2Qc] in *.
  change (Qred (1 # 2)) with (1 # 2) in *. change (inject_Z 0) with 0%Q in *. lra.
Qed.

Lemma round_half_even_large (y : Qc) :
  half < y -> (1 <= round_half_even y)%Z.
Proof.
  intros Hhalf.
  destruct (floor_bounds y) as [Hlo Hhi].
  assert (Hf0 : (0 <= Qfloor y)%Z).
  { change 0%Z with (Qfloor 0). apply Qfloor_resp_le.
    unfold Qclt in Hhalf. cbn [this half Q2Qc] in Hhalf.
    change (Qred (1 # 2)) with (1 # 2) in *. lra. }
  unfold round_half_even.
  destruct (decide (y - Qc_of_Z (Qfloor y) < half)) as [Hr|Hr].
  - destruct (decide (Qfloor y = 0%Z)) as [Hz|]; [|lia].
    exfalso. rewrite Hz in Hr. to_Q. cbn [this Qc_of_Z half Q2Qc] in *.
    change (Qred (1 # 2)) with (1 # 2) in *. change (inject_Z 0) with 0%Q in *. lra.
  - destruct (decide (half < y - Qc_of_Z (Qfloor y))); [lia|].
    destruct (Z.even (Qfloor y)) eqn:Heven; [|lia].
    destruct (decide (Qfloor y = 0%Z)) as [Hz|]; [|lia].
    exfalso. apply Qcnot_lt_le in Hr. rewrite Hz in *.
    to_Q. cbn [this Qc_of_Z half Q2Qc] in *.
    change (Qred (1 # 2)) with (1 # 2) in *. change (inject_Z 0) with 0%Q in *.
    assert (Hy : (1 # 2 < y)%Q) by exact Hhalf. lra.
Qed.

Lemma int_zero_iff z : Qc_of_Z z = 0 <-> z = 0%Z.
Proof.
  split; [|by intros ->; apply Qc_is_canon].
  intros H. apply (f_equal this) in H. by injection H.
Qed.

(** [round(a / b, -3)] for positive integers is 0 exactly up to the ratio
    500. *)
Lemma round_thousands_ratio_zero (a b : Z) :
  (0 < a)%Z -> (0 < b)%Z ->
  round_thousands (int a / int b) = 0 <-> (a <= 500 * b)%Z.
Proof.
  intros Ha Hb. unfold round_thousands.
  set (y := int a / int b / int 1000).
  assert (Hb' : (0 < inject_Z b)%Q) by (change 0%Q with (inject_Z 0); by rewrite <- Zlt_Qlt).
  assert (Hy : (this y == inject_Z a / inject_Z b * (1 # 1000))%Q).
  { unfold y. rewrite !this_div. reflexivity. }
  assert (Hzero : int 1000 * Qc_of_Z (round_half_even y) = 0 <-> round_half_even y = 0%Z).
  { rewrite <- int_zero_iff. split; [|intros ->; ring].
    intros H. apply Qcmult_integral in H as [H|H]; [|done].
    apply int_zero_iff in H. lia. }
  rewrite Hzero. split.
  - intros Hk. apply Z.le_ngt. intros Hlt.
    assert (Hbig : half < y).
    { unfold Qclt. rewrite Hy. cbn [this half Q2Qc]. change (Qred (1 # 2)) with (1 # 2).
      assert (500 < inject_Z a / inject_Z b)%Q; [|lra].
      apply Qlt_shift_div_l; [done|].
      change 500%Q with (inject_Z 500). rewrite <- inject_Z_mult, <- Zlt_Qlt. lia. }
    apply round_half_even_large in Hbig. lia.
  - intros Hle. apply round_half_even_small.
    + unfold Qcle. rewrite Hy. change (this 0) with 0%Q.
      assert (0 <= inject_Z a / inject_Z b)%Q; [|lra].
      apply Qle_shift_div_l; [done|].
      rewrite Qmult_0_l. change 0%Q with (inject_Z 0). rewrite <- Zle_Qle. lia.
    + unfold Qcle. rewrite Hy. cbn [this half Q2Qc]. change (Qred (1 # 2)) with (1 # 2).
      assert (inject_Z a / inject_Z b <= 500)%Q; [|lra].
      apply Qle_shift_div_r; [done|].
      change 500%Q with (inject_Z 500). rewrite <- inject_Z_mult, <- Zle_Qle. lia.
Qed.

Lemma Qc_of_Z_mult a b : Qc_of_Z a * Qc_of_Z b = Qc_of_Z (a * b).
Proof.
  apply Qc_is_canon.
  change (this (Qc_of_Z a * Qc_of_Z b) == inject_Z (a * b))%Q.
  rewrite this_mult. cbn [this Qc_of_Z]. by rewrite inject_Z_mult.
Qed.

(** [round(x, -3)] is a multiple of 1000 at most 500 away from [x]. *)
Theorem round_thousands_nearest (x : Qc) :
  exists k : Z,
    round_thousands x = int (1000 * k) /\ Qcabs (x - round_thousands x) <= int 500.
Proof.
  exists (round_half_even (x / int 1000)). split.
  - unfold round_thousands, int. apply Qc_of_Z_mult.
  - apply Qcabs_Qcle_condition.
    pose proof (round_half_even_near (x / int 1000)) as Hnear.
    unfold round_thousands. set (k := round_half_even (x / int 1000)) in *.
    to_Q. cbn [this Qc_of_Z half Q2Qc int] in *.
    change (Qred (1 # 2)) with (1 # 2) in *.
    unfold Qdiv in Hnear. change (/ inject_Z 1000)%Q with (1 # 1000) in Hnear.
    change (inject_Z 1000) with 1000%Q. change (inject_Z 500) with 500%Q. lra.
Qed.

(** [train_rl] asks for an evaluation every 0 steps exactly when it is given
    20 environments or more. *)
Theorem eval_freq_zero (n_envs : Z) :
  (0 < n_envs)%Z -> eval_freq n_envs = Some 0 <-> (20 <= n_envs)%Z.
Proof.
  intros Hn. unfold eval_freq. rewrite decide_False by lia.
  split.
  - intros H%(inj Some). apply round_thousands_ratio_zero in H; lia.
  - intros H. f_equal. apply round_thousands_ratio_zero; lia.
Qed.

(** [train_marl] asks for a checkpoint every 0 steps exactly when it is
    given 250 environments or more. *)
Theorem save_freq_zero (n_envs : Z) :
  (0 < n_envs)%Z -> save_freq n_envs = Some 0 <-> (250 <= n_envs)%Z.
Proof.
  intros Hn. unfold save_freq. rewrite decide_False by lia.
  split.
  - intros H%(inj Some). apply round_thousands_ratio_zero in H; lia.
  - intros H. f_equal. apply round_thousands_ratio_zero; lia.
Qed.

Lemma eval_freq_zero_witness : eval_freq 20 = Some 0 <-> (20 <= 20)%Z.
Proof. apply (eval_freq_zero 20). lia. Defined.

Lemma save_freq_zero_witness : save_freq 250 = Some 0 <-> (250 <= 250)%Z.
Proof. apply (save_freq_zero 250). lia. Defined.

(** With the default of 10 environments: an evaluation every 1000 steps,
    and a checkpoint every 12000 (12500 is halfway and goes to the even
    side). *)
Example frequencies_of_ten_envs :
  eval_freq 10 = Some (int 1000) /\ save_freq 10 = Some (int 12000).
Proof. split; vm_compute; f_equal; qc_eq. Qed.

End TrainingFacts.

(** ** The artifact locator with the failures of the file system *)

Section LocatorIO.
Import Files FilesIO.

Lemma keys_all_ok key paths :
  (forall p, p ∈ paths -> exists t, key p = Ok t) -> exists ks, keys key paths = Ok ks.
Proof.
  induction paths as [|p paths IH]; intros Hall; [by eexists|].
  destruct (Hall p ltac:(by left)) as [t Ht].
  destruct IH as [ks Hks]; [intros q Hq; apply Hall; by right|].
  exists (t :: ks). simpl. by rewrite Ht, Hks.
Qed.

Lemma keys_first_error key before p after e :
  (forall q, q ∈ before -> exists t, key q = Ok t) ->
  key p = Raise e ->
  keys key (before ++ p :: after) = Raise e.
Proof.
  induction before as [|q before IH]; intros Hall Hp; simpl.
  - by rewrite Hp.
  - destruct (Hall q ltac:(by left)) as [t ->]. simpl.
    rewrite IH; [done | | done]. intros q' Hq'. apply Hall. by right.
Qed.


(** What [find_latest_file] does once the directory exists and [glob] has
    yielded its matches. *)
Lemma find_latest_file_matches fs folder_path pattern matches :
  path_exists fs folder_path = true ->
  glob fs folder_path pattern = Ok matches ->
  find_latest_file fs folder_path pattern
  = (assert (any_path matches) (Some (no_match_msg pattern folder_path));;
     sorted ← sorted_reverse (getmtime fs) matches;
     latest_file ← first_item sorted;
     assert (is_file fs latest_file) (Some (not_a_file_msg latest_file));;
     Ok latest_file).
Proof.
  intros Hex Hglob. unfold find_latest_file. rewrite Hex, Hglob. simpl.
  by destruct (any_path matches).
Qed.

(** On a file system where nothing raises, this is the [find_latest_file] of
    the simpler model. *)
Lemma find_latest_file_lift fs folder_path pattern :
  find_latest_file (lift fs) folder_path pattern
  = Files.find_latest_file fs folder_path pattern.
Proof.
  unfold find_latest_file, Files.find_latest_file. cbn [path_exists glob getmtime is_file lift].
  destruct (Files.path_exists fs folder_path); [|done]. simpl.
  destruct (any_path (Files.glob fs folder_path pattern)); [|done]. simpl.
  unfold sorted_reverse.
  destruct (keys_all_ok (fun p => Ok (Files.getmtime fs p)) (Files.glob fs folder_path pattern))
    as [ks ->]; [by eauto|].
  done.
Qed.

(** C7, as stated, fails twice: with a missing directory the assertion
    error carries no message, and when the newest match is a directory
    nothing is returned although the directory exists and has matches. *)
Lemma find_latest_file_fails_otherwise :
  let fs := lift Samples.models_with_directory in
  (path_exists fs "runs/model" = false /\
   find_latest_file fs "runs/model" "*.zip" = Raise (AssertionError None) /\
   descriptive (AssertionError None) = false)
  /\
  (path_exists fs "runs/models" = true /\
   glob fs "runs/models" "*.zip"
   = Ok ["runs/models/ppo_marl_8000_steps.zip"; "runs/models/ppo_marl_16000_steps.zip";
         "runs/models/archive.zip"] /\
   ~ exists p, find_latest_file fs "runs/models" "*.zip" = Ok p).
Proof.
  split; [done|]. split; [done|]. split; [done|].
  intros [p Hp]. vm_compute in Hp. discriminate Hp.
Qed.

(** C7 (amended): [find_latest_file] raises an assertion error without a
    message when the directory does not exist, and one naming the pattern
    and the folder when no entry matches.  An error that [glob] raises, or
    that [getmtime] raises on a match (the first such match in the order of
    the listing), is passed on.  Otherwise it selects a matching entry than
    which no matching entry is newer; it returns that entry when it is a
    regular file and raises an assertion error naming it when it is not. *)
Theorem find_latest_file_cases (fs : FileSystem) (folder_path : Path) (pattern : string) :
  (path_exists fs folder_path = false ->
   find_latest_file fs folder_path pattern = Raise (AssertionError None))
  /\
  (forall e,
     path_exists fs folder_path = true ->
     glob fs folder_path pattern = Raise e ->
     find_latest_file fs folder_path pattern = Raise e)
  /\
  (path_exists fs folder_path = true ->
   glob fs folder_path pattern = Ok [] ->
   find_latest_file fs folder_path pattern
   = Raise (AssertionError (Some (no_match_msg pattern folder_path))))
  /\
  (forall before p after e,
     path_exists fs folder_path = true ->
     glob fs folder_path pattern = Ok (before ++ p :: after) ->
     (forall q, q ∈ before -> exists t, getmtime fs q = Ok t) ->
     getmtime fs p = Raise e ->
     find_latest_file fs folder_path pattern = Raise e)
  /\
  (forall matches,
     path_exists fs folder_path = true ->
     glob fs folder_path pattern = Ok matches ->
     matches <> [] ->
     (forall q, q ∈ matches -> exists t, getmtime fs q = Ok t) ->
     exists latest t,
       latest ∈ matches /\
       getmtime fs latest = Ok t /\
       (forall q t', q ∈ matches -> getmtime fs q = Ok t' -> t' <= t) /\
       find_latest_file fs folder_path pattern
       = if is_file fs latest then Ok latest
         else Raise (AssertionError (Some (not_a_file_msg latest)))).
Proof.
  split; [|split; [|split; [|split]]].
  - unfold find_latest_file. by intros ->.
  - unfold find_latest_file. by intros e -> ->.
  - intros Hex Hglob. by rewrite (find_latest_file_matches _ _ _ _ Hex Hglob).
  - intros before p after e Hex Hglob Hbefore Hp.
    rewrite (find_latest_file_matches _ _ _ _ Hex Hglob).
    unfold sorted_reverse. rewrite (keys_first_error _ _ _ _ _ Hbefore Hp).
    by destruct before.
  - intros matches Hex Hglob Hsome Hall.
    rewrite (find_latest_file_matches _ _ _ _ Hex Hglob).
    destruct (keys_all_ok _ _ Hall) as [ks Hks].
    destruct (sorted_reverse_nonempty (key_of (getmtime fs)) _ Hsome)
      as (latest & rest & Hsort).
    destruct (sorted_reverse_first _ _ _ _ Hsort) as [Hin Hmax].
    destruct (Hall latest Hin) as [t Ht].
    exists latest, t. split; [done|]. split; [done|]. split.
    + intros q t' Hq Hqt. specialize (Hmax q Hq).
      unfold key_of in Hmax. by rewrite Hqt, Ht in Hmax.
    + unfold sorted_reverse. rewrite Hks. simpl. rewrite Hsort.
      destruct matches; [done|]. simpl. by destruct (is_file fs latest).
Qed.

Lemma find_latest_file_cases_witness :
  find_latest_file with_dangling_link "runs/models" "*.zip"
  = Raise (OSError "No such file or directory").
Proof.
  destruct (find_latest_file_cases with_dangling_link "runs/models" "*.zip")
    as (_ & _ & _ & H & _).
  apply (H ["runs/models/ppo_8000_steps.zip"] "runs/models/latest.zip"
           ["runs/models/ppo_16000_steps.zip"]); [done | done | | done].
  intros q Hq. apply list_elem_of_singleton in Hq as ->. by eexists.
Defined.



End LocatorIO.

(** ** [rl_control_loop] step by step *)

Section RlTurns.
Import Tuning Loops RlEpisode.
Context {State Obs : Type} (env : HolosSingle State Obs) (model : Policy Obs).

Lemma rl_while_step fuel c log :
  rl_while env model (S fuel) (obs_of c) (state_of c) log =
  let c' := advance env model c in
  let log' := log ++ [DoPredict (obs_of c); DoStep (predict model (obs_of c))] in
  if done_of c' then Some (state_of c', log')
  else rl_while env model fuel (obs_of c') (state_of c') log'.
Proof.
  unfold advance. simpl.
  destruct (step env (predict model (obs_of c)) (state_of c))
    as [[[obs' terminated] truncated] s'].
  simpl. by rewrite <- !(assoc_L (++)).
Qed.

Lemma rl_while_runs k : forall fuel c log,
  (k < fuel)%nat ->
  (forall j, (0 < j < S k)%nat -> done_of (after env model j c) = false) ->
  done_of (after env model (S k) c) = true ->
  rl_while env model fuel (obs_of c) (state_of c) log
  = Some (state_of (after env model (S k) c), log ++ turns env model (S k) c).
Proof.
  induction k as [|k IH]; intros fuel c log Hfuel Hgo Hdone;
    (destruct fuel as [|fuel]; [lia|]); rewrite rl_while_step; cbn zeta.
  - simpl in Hdone. by rewrite Hdone.
  - rewrite (Hgo 1%nat ltac:(lia) : done_of (advance env model c) = false).
    rewrite (IH fuel (advance env model c) _ ltac:(lia)); [| |done].
    + cbn [after turns]. by rewrite <- !(assoc_L (++)).
    + intros j Hj. apply (Hgo (S j)). lia.
Qed.

(** X9: [rl_control_loop] runs to the first step that reports terminated or
    truncated.  Its calls are [reset]; then, turn by turn, a prediction on
    the current observation (that of [reset] first, then the one the
    previous step returned) and a step with exactly the predicted action;
    then one [render].  The first turn is played before terminated or
    truncated is looked at. *)
Theorem rl_control_loop_turns (s : State) (k fuel : nat) :
  let c0 := start env s in
  (0 < k <= fuel)%nat ->
  (forall j, (0 < j < k)%nat -> done_of (after env model j c0) = false) ->
  done_of (after env model k c0) = true ->
  rl_control_loop env model fuel s
  = Some (render env (state_of (after env model k c0)),
          DoReset :: turns env model k c0 ++ [DoRender]).
Proof.
  intros c0 Hk Hgo Hdone. destruct k as [|k]; [lia|].
  unfold rl_control_loop. unfold c0, start in *.
  destruct (reset env s) as [obs s0].
  pose proof (rl_while_runs k fuel {| obs_of := obs; state_of := s0; done_of := false |}
                [DoReset] ltac:(lia) Hgo Hdone) as Hrun.
  cbn [obs_of state_of] in Hrun. rewrite Hrun.
  by rewrite <- (assoc_L (++)).
Qed.

End RlTurns.

Section RlTurnSamples.
Import Tuning Loops RlEpisode.

Lemma rl_control_loop_turns_witness :
  rl_control_loop Samples.quiet MoreSamples.echo 10 0%nat
  = Some (3%nat,
          [DoReset;
           DoPredict 1; DoStep [1];
           DoPredict 1; DoStep [1];
           DoPredict (Samples.q 98 100); DoStep [Samples.q 98 100];
           DoRender]).
Proof.
  apply (rl_control_loop_turns Samples.quiet MoreSamples.echo 0%nat 3 10).
  - lia.
  - intros j Hj. by assert (j = 1%nat \/ j = 2%nat) as [-> | ->] by lia.
  - reflexivity.
Defined.

End RlTurnSamples.

(** * Properties of the code on doubles *)

(** ** The controller *)

Section MachineController.
Import Machine.

Lemma double_ltb_leb a b : ltb a b = true -> leb a b = true.
Proof. unfold ltb, leb, SFltb, SFleb. by destruct (SFcompare a b) as [[]|]. Qed.

Lemma double_leb_not_nan a b : leb a b = true -> is_nan a = false /\ is_nan b = false.
Proof. unfold leb, SFleb. by destruct a, b. Qed.

Lemma double_leb_refl x : is_nan x = false -> leb x x = true.
Proof.
  unfold leb, SFleb. destruct x as [s|s| |s m e]; [done | by destruct s | done |].
  intros _. simpl. rewrite Z.compare_refl.
  change (Pos.compare_cont Eq m m) with (m ?= m)%positive.
  rewrite Pos.compare_refl. by destruct s.
Qed.

(** With bounds in order, [np.clip] brings every number between them. *)
Lemma clip_within x lo hi :
  leb lo hi = true -> is_nan x = false ->
  within lo hi (clip_min (clip_max x lo) hi) = true.
Proof.
  intros Hle Hx. destruct (double_leb_not_nan _ _ Hle) as [Hlo Hhi].
  unfold within, clip_max. rewrite Hx.
  destruct (ltb lo x) eqn:Hlt.
  - unfold clip_min. rewrite Hx. destruct (ltb x hi) eqn:Hlt'.
    + by rewrite (double_ltb_leb _ _ Hlt), (double_ltb_leb _ _ Hlt').
    + by rewrite Hle, (double_leb_refl _ Hhi).
  - unfold clip_min. rewrite Hlo. destruct (ltb lo hi) eqn:Hlt'.
    + by rewrite (double_leb_refl _ Hlo), Hle.
    + by rewrite Hle, (double_leb_refl _ Hhi).
Qed.

(** NaN goes through [np.clip] whatever the bounds, and lies within no
    bounds. *)
Lemma clip_nan x lo hi : is_nan x = true -> clip_min (clip_max x lo) hi = nan.
Proof. by destruct x. Qed.

Lemma within_nan lo hi : within lo hi nan = false.
Proof. unfold within, leb, SFleb. destruct lo; simpl; by rewrite ?andb_false_r. Qed.

Lemma updates_max_rate inputs : forall c, max_rate (updates c inputs) = max_rate c.
Proof. induction inputs as [|i inputs IH]; intros c; [done|]. simpl. by rewrite IH. Qed.

Lemma update_command c measurement setpoint :
  (update c measurement setpoint).1
  = [clip_min (clip_max (command c measurement setpoint) (opp (max_rate c))) (max_rate c)].
Proof. done. Qed.

(** C2, as stated, fails twice on the doubles of the code.  A controller
    constructed with [max_rate = -1] returns [-1], and nothing lies within
    [[1, -1]].  And the default controller, on the finite measurement
    [-1e308] and the finite setpoint [1e308], forms the error [inf] and the
    accumulator [0 * inf = nan], and returns [nan], which is not within
    [[-1, 1]]. *)
Lemma update_leaves_range :
  (let c := init zero zero zero (opp one) in
   (update c zero zero).1 = [opp one] /\
   within (opp (max_rate c)) (max_rate c) (opp one) = false)
  /\
  (let big := of_Z (10 ^ 308) in
   is_finite big = true /\ is_finite (opp big) = true /\
   leb zero (max_rate default) = true /\
   (update default (opp big) big).1 = [nan] /\
   within (opp (max_rate default)) (max_rate default) nan = false).
Proof. by vm_compute. Qed.

(** C2 (amended): for every gains and every rate limit with [-max_rate <=
    max_rate] (that is, [max_rate >= 0] and not NaN), whatever calls came
    before and whatever the measurement and the setpoint, finite or not:
    [update] returns one number; when the raw command it forms is not NaN
    that number lies within [[-max_rate, +max_rate]], however large the
    accumulator; when the raw command is NaN the number returned is NaN,
    which lies within no bounds. *)
Theorem update_within_rate (kp ki kd mr : double) (inputs : list (double * double))
    (measurement setpoint : double) :
  let c := updates (init kp ki kd mr) inputs in
  leb (opp mr) mr = true ->
  (is_nan (command c measurement setpoint) = false ->
   exists y, (update c measurement setpoint).1 = [y] /\ within (opp mr) mr y = true)
  /\
  (is_nan (command c measurement setpoint) = true ->
   (update c measurement setpoint).1 = [nan] /\ within (opp mr) mr nan = false).
Proof.
  intros c Hrate.
  assert (Hmr : max_rate c = mr) by apply updates_max_rate.
  rewrite update_command, Hmr. split; intros Hcmd.
  - eexists. split; [done|]. by apply clip_within.
  - split; [by rewrite clip_nan | apply within_nan].
Qed.

(** The default controller after an earlier call, driven into saturation by
    an error of 100. *)
Lemma update_within_rate_witness :
  (update (updates default [(zero, zero)]) zero (of_Z 100)).1 = [one]
  /\ within (opp one) one one = true.
Proof.
  destruct (update_within_rate (dec 78 1000) (of_Z 0) (dec 3 10) one
              [(zero, zero)] zero (of_Z 100)) as [Hin _]; [by vm_compute|].
  destruct Hin as (y & Hy & Hwithin); [by vm_compute|].
  assert (Hone : y = one) by (vm_compute in Hy |- *; congruence).
  rewrite Hone in Hy, Hwithin. split; [exact Hy | exact Hwithin].
Defined.

(** X1: the accumulator is never reset or limited: after any sequence of
    calls it is what adding [Ki * err * 1] for each call, in order, makes of
    the accumulator before them, whatever the other gains, the rate limit
    and the clamping did. *)
Theorem integral_is_running_sum (c : PIDController) (inputs : list (double * double)) :
  integral (updates c inputs)
  = foldl (fun acc i => add acc (mul (mul (Ki c) (sub i.2 i.1)) one)) (integral c) inputs.
Proof.
  revert c. induction inputs as [|i inputs IH]; intros c; [done|].
  change (updates c (i :: inputs)) with (updates (update c i.1 i.2).2 inputs).
  by rewrite IH.
Qed.

(** Ten calls with [Ki = 0.1] and an error of 1 each leave the accumulator
    at 0.9999999999999999, not at 1. *)
Example integral_ten_tenths :
  let c := updates (init zero (dec 1 10) zero one) (replicate 10 (zero, one)) in
  eqb (integral c) one = false /\ ltb (integral c) one = true.
Proof. by vm_compute. Qed.

Lemma mul_zero_finite z x :
  is_zero z = true -> is_finite x = true -> is_zero (mul z x) = true.
Proof. by destruct z, x. Qed.

Lemma add_zero_zero a b : is_zero a = true -> is_zero b = true -> is_zero (add a b) = true.
Proof. destruct a as [sa| | |], b as [sb| | |]; try done. by destruct sa, sb. Qed.

Lemma add_zero_r x z : is_zero x = false -> is_zero z = true -> add x z = x.
Proof. by destruct x, z. Qed.

Lemma one_finite : is_finite one = true.
Proof. by vm_compute. Qed.

(** X2: with [Ki], [Kd] and the accumulator at zero the controller is purely
    proportional as long as the error and the derivative do not overflow:
    when both are finite and [Kp * err] is not zero, [update] returns
    [Kp * err], clamped, and the accumulator stays at zero. *)
Theorem update_proportional (c : PIDController) (measurement setpoint : double) :
  let err := sub setpoint measurement in
  is_zero (Ki c) = true -> is_zero (Kd c) = true -> is_zero (integral c) = true ->
  is_finite err = true ->
  is_finite (div (sub err (err_prev c)) one) = true ->
  is_zero (mul (Kp c) err) = false ->
  (update c measurement setpoint).1
  = np_clip [mul (Kp c) err] (opp (max_rate c)) (max_rate c)
  /\ is_zero (integral (update c measurement setpoint).2) = true.
Proof.
  intros err HKi HKd Hint Herr Hderiv HP.
  assert (Hacc : is_zero (add (integral c) (mul (mul (Ki c) err) one)) = true).
  { apply add_zero_zero; [done|].
    apply mul_zero_finite; [by apply mul_zero_finite | apply one_finite]. }
  split; [|exact Hacc].
  unfold update. cbn [fst]. fold err.
  rewrite (add_zero_r _ _ HP Hacc).
  by rewrite (add_zero_r _ _ HP (mul_zero_finite _ _ HKd Hderiv)).
Qed.

Lemma update_proportional_witness :
  (update (init (of_Z 2) zero zero one) zero (dec 1 4)).1
  = np_clip [mul (of_Z 2) (sub (dec 1 4) zero)] (opp one) one
  /\ is_zero (integral (update (init (of_Z 2) zero zero one) zero (dec 1 4)).2) = true.
Proof.
  by apply (update_proportional (init (of_Z 2) zero zero one) zero (dec 1 4)).
Defined.

(** Without the condition on the derivative the property fails: after
    [update(1e308, 0)] the call [update(-1e308, 0)] has the finite error
    [1e308] and the derivative [inf], and returns [nan]. *)
Example update_proportional_overflow :
  let big := of_Z (10 ^ 308) in
  let c := (update (init one zero zero one) big zero).2 in
  is_finite (sub zero (opp big)) = true /\
  is_finite (div (sub (sub zero (opp big)) (err_prev c)) one) = false /\
  (update c (opp big) zero).1 = [nan].
Proof. by vm_compute. Qed.

End MachineController.

(** ** The metrics *)

Section MachineMetrics.
Import Machine.
Variable np_sum : list double -> double.
Variable np_mean : list double -> double.
Variable np_sum2 : list (list double) -> double.

Lemma abs_errors_zip rows :
  map abs (zip_with sub (map desired_power rows) (map actual_power rows))
  = abs_errors rows.
Proof. induction rows as [|r rows IH]; simpl; [done | by rewrite IH]. Qed.

Lemma drum_moves_diff rows :
  map (map abs) (np_diff_axis0 (drum_columns rows)) = drum_moves rows.
Proof.
  destruct rows as [|r rows]; [done|].
  revert r. induction rows as [|r' rows IH]; intros r; [done|].
  change (drum_moves (r :: r' :: rows)) with (moves r r' :: drum_moves (r' :: rows)).
  rewrite <- IH. done.
Qed.

(** Once the first two time values are there, [calc_metrics] is the check of
    their difference followed by the metrics of section 4.5. *)
Lemma calc_metrics_check_then_metrics history t0 t1 :
  getitem (time history) 0 = Ok t0 ->
  getitem (time history) 1 = Ok t1 ->
  calc_metrics np_sum np_mean np_sum2 history
  = (assert (step_is_one t1 t0) (Some History.unit_step_msg);;
     Ok (metrics np_sum np_mean np_sum2 (rows history))).
Proof.
  intros H0 H1. unfold calc_metrics. rewrite H1, H0. simpl.
  destruct (step_is_one t1 t0); simpl; [|done].
  unfold metrics. by rewrite abs_errors_zip, drum_moves_diff.
Qed.



Lemma pow63 : (2 ^ 63 = 9223372036854775808)%Z.
Proof. done. Qed.
Lemma pow64 : (2 ^ 64 = 18446744073709551616)%Z.
Proof. done. Qed.

Lemma wrap64_one d :
  (- 2 ^ 64 < d < 2 ^ 64)%Z ->
  wrap64 d = 1%Z <-> (d = 1 \/ d = 1 - 2 ^ 64)%Z.
Proof.
  unfold wrap64. rewrite pow63, pow64. intros Hd.
  pose proof (Z.div_mod (d + 9223372036854775808) 18446744073709551616 ltac:(lia)) as Hq.
  pose proof (Z.mod_pos_bound (d + 9223372036854775808) 18446744073709551616 ltac:(lia)).
  lia.
Qed.

(** On 64-bit integers the check passes for the differences 1 and
    [1 - 2^64], and for no other. *)
Lemma int64_step a b :
  int64 a -> int64 b ->
  step_is_one (I64 a) (I64 b) = true <-> ((a - b = 1)%Z \/ (a - b = 1 - 2 ^ 64)%Z).
Proof.
  unfold int64. intros Ha Hb. cbn [step_is_one]. rewrite Z.eqb_eq.
  apply wrap64_one. rewrite pow63, pow64 in *. lia.
Qed.


(** C6 (amended): when the difference [time[1] - time[0]] that the code
    computes is not equal to 1, [calc_metrics] raises the assertion error
    and returns nothing.  For integer times this is every exact difference
    other than 1 and [1 - 2^64]. *)
Theorem calc_metrics_raises_on_step (history : DataFrame) (t0 t1 : scalar) :
  getitem (time history) 0 = Ok t0 ->
  getitem (time history) 1 = Ok t1 ->
  step_is_one t1 t0 = false ->
  calc_metrics np_sum np_mean np_sum2 history
  = Raise (AssertionError (Some History.unit_step_msg))
  /\
  (forall a b : Z, int64 a -> int64 b ->
     (a - b <> 1)%Z -> (a - b <> 1 - 2 ^ 64)%Z -> step_is_one (I64 a) (I64 b) = false).
Proof.
  intros H0 H1 Hstep. split.
  - rewrite (calc_metrics_check_then_metrics _ _ _ H0 H1). by rewrite Hstep.
  - intros a b Ha Hb Hne Hne'. apply not_true_is_false. intros Hone.
    apply (int64_step a b Ha Hb) in Hone. tauto.
Qed.


End MachineMetrics.

Section MachineMetricsSamples.
Import Machine.



(** C6, as stated, fails: the integer times [2^63 - 1] and [-2^63] differ by
    [1 - 2^64], the double times 1e-17 and 1 by a little less than 1, and in
    both cases the difference that the code computes is 1 and metrics are
    returned. *)
Lemma calc_metrics_accepts_other_steps :
  ((- 2 ^ 63 - (2 ^ 63 - 1) <> 1)%Z /\
   time wrapping = Int64 [2 ^ 63 - 1; - 2 ^ 63; 0]%Z /\
   calc_metrics seq_sum seq_mean seq_sum2 wrapping
   = Ok (metrics seq_sum seq_mean seq_sum2 three_rows))
  /\
  (is_zero (dec 1 (10 ^ 17)) = false /\
   time tiny_start = Float64 [dec 1 (10 ^ 17); one; of_Z 2] /\
   calc_metrics seq_sum seq_mean seq_sum2 tiny_start
   = Ok (metrics seq_sum seq_mean seq_sum2 three_rows)).
Proof. repeat split; first [reflexivity | by vm_compute]. Qed.

Lemma calc_metrics_raises_on_step_witness :
  calc_metrics seq_sum seq_mean seq_sum2 half_seconds
  = Raise (AssertionError (Some History.unit_step_msg))
  /\
  (forall a b : Z, int64 a -> int64 b ->
     (a - b <> 1)%Z -> (a - b <> 1 - 2 ^ 64)%Z -> step_is_one (I64 a) (I64 b) = false).
Proof.
  apply (calc_metrics_raises_on_step seq_sum seq_mean seq_sum2 half_seconds
           (F64 zero) (F64 (dec 1 2))); [reflexivity | reflexivity | by vm_compute].
Defined.



(** The three sample rows with the times 0, 1, 2 as integers and as
    doubles.  Summed from left to right the IAE is the double
    0.06999999999999995, not 0.07. *)
Example calc_metrics_seconds :
  calc_metrics seq_sum seq_mean seq_sum2 seconds
  = Ok (metrics seq_sum seq_mean seq_sum2 three_rows)
  /\ calc_metrics seq_sum seq_mean seq_sum2 float_seconds
     = Ok (metrics seq_sum seq_mean seq_sum2 three_rows)
  /\ eqb (seq_sum (abs_errors three_rows)) (dec 7 100) = false
  /\ ltb (seq_sum (abs_errors three_rows)) (dec 7 100) = true.
Proof. repeat split; by vm_compute. Qed.

End MachineMetricsSamples.
